(** * decision_tree.js: the navigation and history engine of a decision tree

    A shallow embedding of the class [DecisionTree] of
    [src/decision_tree.js]: the record kept in [this.storage], the items of
    [localStorage], the filter of the summary entries and the three
    transitions (answer, back, restart), followed by the properties of the
    specification that concern them. *)

From Stdlib Require Import Ascii String ZArith Lia.
From stdpp Require Import base tactics option list strings gmap.

Open Scope string_scope.
Open Scope list_scope.

(** ** JavaScript values and strings

    A character is a UTF-16 code unit below 256, so a string is a
    [String.string].  The values that occur where the engine expects a step
    identifier are strings, [undefined] (a missing property, [steps[0]] of an
    empty array) and [null] (what JSON makes of [undefined] inside an
    array). *)

Module JS.

Inductive value : Type :=
| Undefined
| Null
| Str (s : string).

(** [!v] is [negb (truthy v)]: the empty string is falsy. *)
Definition truthy (v : value) : bool :=
  match v with
  | Str s => negb (String.eqb s "")
  | Undefined | Null => false
  end.

(** [v + ''], the string a value contributes to a concatenation. *)
Definition to_string (v : value) : string :=
  match v with
  | Undefined => "undefined"
  | Null => "null"
  | Str s => s
  end.

(** [a === b] *)
Definition strict_eq (a b : value) : bool :=
  match a, b with
  | Undefined, Undefined => true
  | Null, Null => true
  | Str s, Str t => String.eqb s t
  | _, _ => false
  end.

(** [s.split(sep)] for a separator of one character: never empty, and
    [''.split(sep)] is [['']]. *)
Fixpoint split (sep : ascii) (s : string) : list string :=
  match s with
  | EmptyString => [EmptyString]
  | String c rest =>
      if Ascii.eqb c sep then EmptyString :: split sep rest
      else match split sep rest with
           | w :: ws => String c w :: ws
           | [] => [String c EmptyString]
           end
  end.

(** The white space and line terminators below code unit 256:
    TAB, LF, VT, FF, CR, SP and NBSP. *)
Definition is_white (c : ascii) : bool :=
  let n := nat_of_ascii c in
  Nat.eqb n 9 || Nat.eqb n 10 || Nat.eqb n 11 || Nat.eqb n 12 ||
  Nat.eqb n 13 || Nat.eqb n 32 || Nat.eqb n 160.

Fixpoint trimStart (s : string) : string :=
  match s with
  | EmptyString => EmptyString
  | String c rest => if is_white c then trimStart rest else s
  end.

Fixpoint trimEnd (s : string) : string :=
  match s with
  | EmptyString => EmptyString
  | String c rest =>
      match trimEnd rest with
      | EmptyString => if is_white c then EmptyString else String c EmptyString
      | kept => String c kept
      end
  end.

(** [s.trim()] *)
Definition trim (s : string) : string := trimEnd (trimStart s).

(** [arr.includes(x)] for a string [x]: SameValueZero is [===] here. *)
Definition includes (arr : list value) (x : string) : bool :=
  existsb (fun v => strict_eq v (Str x)) arr.

(** [arr.indexOf(val)] on an array of strings, [-1] when absent. *)
Fixpoint indexOf_from (i : Z) (arr : list string) (val : value) : Z :=
  match arr with
  | [] => (-1)%Z
  | x :: rest =>
      if strict_eq (Str x) val then i else indexOf_from (i + 1)%Z rest val
  end.

Definition indexOf (arr : list string) (val : value) : Z :=
  indexOf_from 0%Z arr val.

(** Whether a property that may be missing is there. *)
Definition present {A : Type} (o : option A) : bool :=
  match o with
  | Some _ => true
  | None => false
  end.

(** [arr[i]], [undefined] out of range. *)
Definition at_index (arr : list value) (i : nat) : value :=
  default Undefined (arr !! i).

End JS.

Import JS.

(** ** The data of one tree

    [this.config] is fixed by the constructor.  [this.storage] is the record
    of the session; a property that is missing reads as [undefined], the
    array [history] may be missing altogether. *)

Record config : Type := Config {
  id : string;
  first_step : value;          (* steps[0]: undefined for an empty array *)
  steps : list string
}.

Record state : Type := State {
  st_first_step : value;
  active : value;
  history : option (list value)
}.

(** The object parsed from the item that [localStorage] keeps under the
    identifier of the tree.  The engine writes [{}] or an object whose only
    property is named by that identifier and holds the record of the
    session: [None] is [{}], [Some s] is [{[id]: s}]. *)
Definition item : Type := option state.

(** What [this.storage] refers to when [_saveStorage] runs: the record of
    the session, or (inside [_validateHistory]) the whole parsed item. *)
Inductive this_storage : Type :=
| Tree (s : state)
| Whole (o : item).

(** [JSON.parse(JSON.stringify(o))]: [undefined] inside an array comes back
    as [null]; a property that is [undefined] is dropped and so still reads
    as [undefined]. *)
Definition json_element (v : value) : value :=
  match v with
  | Undefined => Null
  | _ => v
  end.

Definition json_state (s : state) : state :=
  {| st_first_step := st_first_step s;
     active := active s;
     history := option_map (map json_element) (history s) |}.

Definition json (o : item) : item := option_map json_state o.

(** ** The page

    The document is outside the engine.  What the engine reads from it is
    kept in a record: the [.step] elements with their [id] attribute, the
    [.step__answer] elements with the presence of their two attributes, the
    [li] entries of the summary with their filters, and whether the parts
    that only touch the document throw. *)

Record info : Type := Info {
  data_pass_filter : option string;
  data_stop_filter : option string
}.

Record DOM : Type := Dom {
  step_elements : list (option string);
  answer_elements : list (bool * bool);
  summary_entries : list info;
  showSummary_throws : state -> bool;
  trackAttribute_throws : value -> bool;
  buttons_missing : bool
}.

(** What the engine sends out: warnings, page views, and the requests to
    the document. *)
Inductive event : Type :=
| Warn (msg : string)
| PageView (path : string)
| Hide (selector : string)
| Show (selector : string)
| HideEntry (n : nat)
| ShowEntry (n : nat)
| Summary
| CleanHTML
| Attribute (step : value)
| Bound.

Inductive exn : Type :=
| TypeError
| SyntaxError
| Error (msg : string).

Inductive result (A : Type) : Type :=
| Ok (a : A)
| Throw (e : exn).

Arguments Ok {A} a.
Arguments Throw {A} e.

(** ** Running a method

    A method reads and writes [this.storage] and [localStorage] and sends
    events; it returns or throws, and what it wrote before throwing
    stays. *)

Record world : Type := World {
  storage : state;
  localStorage : gmap string item;
  trace : list event
}.

Definition M (A : Type) : Type := world -> result A * world.

Definition ret {A : Type} (a : A) : M A := fun w => (Ok a, w).

Definition throw {A : Type} (e : exn) : M A := fun w => (Throw e, w).

Definition bind {A B : Type} (m : M A) (k : A -> M B) : M B :=
  fun w =>
    match m w with
    | (Ok a, w') => k a w'
    | (Throw e, w') => (Throw e, w')
    end.

Notation "x <- m ;; k" := (bind m (fun x => k))
  (at level 100, m at next level, right associativity).
Notation "m ;; k" := (bind m (fun _ => k))
  (at level 100, right associativity).

(** [try { body } catch (e) { handler }] *)
Definition try_catch (body handler : M unit) : M unit :=
  fun w =>
    match body w with
    | (Ok a, w') => (Ok a, w')
    | (Throw _, w') => handler w'
    end.

Definition this_storage_get : M state := fun w => (Ok (storage w), w).

Definition this_storage_set (s : state) : M unit :=
  fun w => (Ok tt, {| storage := s; localStorage := localStorage w; trace := trace w |}).

Definition emit (e : event) : M unit :=
  fun w => (Ok tt, {| storage := storage w; localStorage := localStorage w;
                      trace := trace w ++ [e] |}).

(** [for (x of l) body(x, index)] *)
Fixpoint forEach {A : Type} (body : A -> nat -> M unit) (l : list A) (index : nat) : M unit :=
  match l with
  | [] => ret tt
  | x :: rest => body x index ;; forEach body rest (S index)
  end.

(** ** class DecisionTree *)

Module DecisionTree.

(** [steps[0]] *)
Definition first_of (steps : list string) : value :=
  match steps with
  | [] => Undefined
  | x :: _ => Str x
  end.

(** [Array.isArray(steps)]: [_loadSteps] returns the array it has built,
    whatever its length. *)
Definition Array_isArray (steps : list string) : bool := true.

(** [_validation(id)]: the warnings about the structure, in order. *)
Definition _validation (dom : DOM) (id : string) : list event :=
  flat_map (fun el : option string =>
              match el with
              | None => [Warn ("One of your steps in decision tree with ID " ++ id
                                 ++ " does not have ID element filled.")]
              | Some _ => []
              end) (step_elements dom)
  ++ flat_map (fun el : bool * bool =>
                 (if fst el then []
                  else [Warn ("One of your answers in decision tree id " ++ id
                                ++ " does not have href filled.")])
                 ++ (if snd el then []
                     else [Warn ("One of your answers in decision tree id " ++ id
                                   ++ " does not have data-answer-path filled.")]))
       (answer_elements dom).

(** [_loadSteps(id)]: [el.id] of every [.step], the empty string for an
    element without the attribute; a warning when there is none. *)
Definition _loadSteps (dom : DOM) (id : string) : list string * list event :=
  let steps := map (fun el : option string => default "" el) (step_elements dom) in
  (steps,
   if Nat.ltb (length steps) 1
   then [Warn "Decision tree should have at least one step."]
   else []).

Section Methods.

Variable dom : DOM.
Variable cfg : config.

(** A property of the parsed item read by name: the item has at most the
    property named by the identifier of the tree. *)
Definition property (o : item) (name : string) : option state :=
  if String.eqb (id cfg) name then o else None.

(** [_saveStorage()], with what [this.storage] refers to at the call.  When
    that is the whole parsed item, [this.storage.active] and
    [this.storage.history] are the properties [active] and [history] of the
    item; they are never both there (lemma [whole_item_is_cleaned]), so the
    clean-up applies. *)
Definition _saveStorage (self : this_storage) (ls : gmap string item) : gmap string item :=
  let storage : item := default None (ls !! id cfg) in
  match self with
  | Tree s =>
      let storage : item := Some s in
      let storage : item :=
        if negb (truthy (active s)) || negb (present (history s))
        then None else storage in
      <[id cfg := json storage]> ls
  | Whole o =>
      <[id cfg := @None state]> ls
  end.

(** [_validateHistory(storage)]; [this.config.steps] is an array, which is
    truthy, so the steps are those of the configuration. *)
Definition _validateHistory (storage : item) (ls : gmap string item)
  : result item * gmap string item :=
  match storage with
  | None => (Throw TypeError, ls)
  | Some record =>
      let history_length :=
        match history record with Some h => length h | None => 0 end in
      let steps := steps cfg in
      if Nat.ltb 0 history_length && Nat.ltb 0 (length steps) then
        let valid :=
          forallb (fun val => negb (Z.eqb (indexOf steps val) (-1)))
                  (default [] (history record)) in
        if negb valid then
          let storage : item :=
            Some {| st_first_step := st_first_step record;
                    active := first_step cfg;
                    history := Some [first_step cfg] |} in
          (Ok storage, _saveStorage (Whole storage) ls)
        else (Ok storage, ls)
      else (Ok storage, ls)
  end.

(** [_loadStorage(id)] *)
Definition _loadStorage (ls : gmap string item) : result state * gmap string item :=
  let storage : item := default None (ls !! id cfg) in
  match storage with
  | Some _ =>
      match _validateHistory storage ls with
      | (Ok (Some record), ls') => (Ok record, ls')
      | (Ok None, ls') => (Throw TypeError, ls')
      | (Throw e, ls') => (Throw e, ls')
      end
  | None =>
      (Ok {| st_first_step := first_step cfg;
             active := first_step cfg;
             history := Some [first_step cfg] |}, ls)
  end.

(** [this._saveStorage()] as a method of a constructed tree. *)
Definition this_saveStorage : M unit :=
  fun w =>
    (Ok tt, {| storage := storage w;
               localStorage := _saveStorage (Tree (storage w)) (localStorage w);
               trace := trace w |}).

Definition set_active (v : value) : M unit :=
  s <- this_storage_get ;;
  this_storage_set {| st_first_step := st_first_step s; active := v; history := history s |}.

Definition set_history (h : option (list value)) : M unit :=
  s <- this_storage_get ;;
  this_storage_set {| st_first_step := st_first_step s; active := active s; history := h |}.

(** [this.storage.history], to call a method of the array or read its
    length: a [TypeError] when the property is missing. *)
Definition history_array : M (list value) :=
  s <- this_storage_get ;;
  match history s with
  | Some h => ret h
  | None => throw TypeError
  end.

(** [hide(elem)] and [show(elem)] catch what they throw. *)
Definition hide (selector : string) : M unit := emit (Hide selector).
Definition show (selector : string) : M unit := emit (Show selector).

(** [trackGA(path)]: the page view handed to the analytics of the page,
    which are taken to return. *)
Definition trackGA (path : string) : M unit := emit (PageView path).

(** [_cleanHTML()]: two [querySelectorAll] under the element of the tree,
    which exists. *)
Definition _cleanHTML : M unit := emit CleanHTML.

Definition step_selector (step : value) : string :=
  "#" ++ id cfg ++ " #" ++ to_string step.

Definition footer_selector : string := "#" ++ id cfg ++ " .decision-tree__footer".

(** [_showSummary()]: it changes neither [this.storage] nor [localStorage];
    it throws when the element of the active step is not found. *)
Definition _showSummary : M unit :=
  _cleanHTML ;;
  s <- this_storage_get ;;
  if showSummary_throws dom s then throw TypeError else emit Summary.

(** [trackAttribute(id)]: throws when the selector of the step is not one. *)
Definition trackAttribute (step : value) : M unit :=
  if trackAttribute_throws dom step then throw SyntaxError else emit (Attribute step).

(** [is_in_history(filter_array)], for [this.storage.history] an array. *)
Definition is_in_history (history : list value) (filter_array : string) : bool :=
  forallb (fun object => includes history object) (split " " filter_array).

(** The value of [show_step] at the end of the body of the loop of
    [filter()], for one entry. *)
Definition show_step (history : list value) (entry : info) : bool :=
  let show_step := true in
  let show_step :=
    match data_pass_filter entry with
    | Some v =>
        let pass := split "," v in
        forallb (fun and => is_in_history history (trim and)) pass
    | None => show_step
    end in
  let show_step :=
    match data_stop_filter entry with
    | Some v =>
        let stop := split "," v in
        fold_left (fun show_step and =>
                     let result := is_in_history history (trim and) in
                     if show_step && result then false else show_step)
                  stop show_step
    | None => show_step
    end in
  show_step.

(** [filter()]: an entry with a filter throws when [this.storage.history]
    is missing. *)
Definition filter : M unit :=
  forEach (fun entry n =>
             s <- this_storage_get ;;
             match history s with
             | Some h =>
                 if show_step h entry then emit (ShowEntry n) else emit (HideEntry n)
             | None =>
                 if present (data_pass_filter entry) || present (data_stop_filter entry)
                 then throw TypeError
                 else emit (ShowEntry n)
             end)
          (summary_entries dom) 0.

(** [toggleFooter()] *)
Definition toggleFooter : M unit :=
  s <- this_storage_get ;;
  if match history s with Some h => Nat.ltb 1 (length h) | None => false end
  then show footer_selector
  else hide footer_selector.

(** [activate()] *)
Definition activate : M unit :=
  try_catch
    (s <- this_storage_get ;;
     trackGA (to_string (active s) ++ "/") ;;
     hide ("#" ++ id cfg ++ ".step") ;;
     toggleFooter ;;
     show (step_selector (active s)) ;;
     _showSummary ;;
     filter ;;
     (if buttons_missing dom then throw TypeError else emit Bound) ;;
     this_saveStorage)
    (hide ("#" ++ id cfg) ;;
     emit (Warn ("Cannot activate decision tree with ID " ++ id cfg
                   ++ ". Incorrect HTML structure."))).

(** [trackAnswer(nextStep, datakey)]; [datakey] is the attribute
    [data-answer-path] or [false]. *)
Definition trackAnswer (nextStep : string) (datakey : option string) : M unit :=
  s <- this_storage_get ;;
  match datakey with
  | Some key =>
      if negb (String.eqb key "")
      then trackGA (to_string (active s) ++ "/" ++ key)
      else ret tt
  | None => ret tt
  end ;;
  hide (step_selector (active s)) ;;
  show (step_selector (Str nextStep)) ;;
  trackGA (nextStep ++ "/") ;;
  set_active (Str nextStep) ;;
  h <- history_array ;;
  set_history (Some (h ++ [Str nextStep])) ;;
  this_saveStorage ;;
  trackAttribute (Str nextStep) ;;
  _showSummary ;;
  toggleFooter.

(** [trackBackButton()] *)
Definition trackBackButton : M unit :=
  h <- history_array ;;
  if Nat.leb (length h) 1 then ret tt
  else
    s <- this_storage_get ;;
    hide (step_selector (active s)) ;;
    let previousStep := at_index h (length h - 2) in
    show (step_selector previousStep) ;;
    trackGA (to_string previousStep ++ "/back") ;;
    hide (step_selector (active s) ++ " .step__info") ;;
    _cleanHTML ;;
    set_active previousStep ;;
    h <- history_array ;;
    set_history (Some (removelast h)) ;;
    this_saveStorage ;;
    s <- this_storage_get ;;
    trackAttribute (active s) ;;
    toggleFooter.

(** [trackRestartButton()] *)
Definition trackRestartButton : M unit :=
  s <- this_storage_get ;;
  hide (step_selector (active s)) ;;
  trackGA (to_string (active s) ++ "/restart") ;;
  set_active (first_step cfg) ;;
  show (step_selector (first_step cfg)) ;;
  trackGA (to_string (first_step cfg)) ;;
  set_history (Some [first_step cfg]) ;;
  this_saveStorage ;;
  trackAttribute (first_step cfg) ;;
  toggleFooter ;;
  _cleanHTML.

End Methods.

(** What [new DecisionTree(id)] gives: the tree with its configuration and
    the world it runs in, or the exception that escaped. *)
Inductive constructed : Type :=
| Instance (cfg : config) (w : world)
| Failed (e : exn) (ls : gmap string item) (tr : list event).

(** [this.config] as the constructor sets it. *)
Definition config_of (dom : DOM) (id : string) : config :=
  let steps := fst (_loadSteps dom id) in
  {| id := id; first_step := first_of steps; steps := steps |}.

(** [constructor(id)], on the page [dom], with the content of
    [localStorage] and what was sent out so far. *)
Definition constructor (dom : DOM) (id : string)
    (ls : gmap string item) (tr : list event) : constructed :=
  let tr := tr ++ _validation dom id in
  let (steps, warnings) := _loadSteps dom id in
  let tr := tr ++ warnings in
  if Array_isArray steps then
    let cfg := {| id := id; first_step := first_of steps; steps := steps |} in
    match _loadStorage cfg ls with
    | (Ok s, ls') =>
        match activate dom cfg {| storage := s; localStorage := ls'; trace := tr |} with
        | (Ok _, w) => Instance cfg w
        | (Throw e, w) => Failed e (localStorage w) (trace w)
        end
    | (Throw e, ls') => Failed e ls' tr
    end
  else Failed (Error "Please follow proper HTML structure.") ls tr.

(** ** One session

    The page is loaded, the visitor clicks answers and the two buttons, and
    may load the page again.  A handler that throws leaves the page as it
    has written it. *)
Inductive input : Type :=
| Answer (nextStep : string) (datakey : option string)
| Back
| Restart
| Load.

Definition handle (dom : DOM) (id : string) (i : input) (w : world) : world :=
  let cfg := config_of dom id in
  match i with
  | Answer nextStep datakey => snd (trackAnswer dom cfg nextStep datakey w)
  | Back => snd (trackBackButton dom cfg w)
  | Restart => snd (trackRestartButton dom cfg w)
  | Load =>
      match constructor dom id (localStorage w) (trace w) with
      | Instance _ w' => w'
      | Failed _ _ _ => w
      end
  end.

Definition run (dom : DOM) (id : string) (inputs : list input) (w : world) : world :=
  fold_left (fun w i => handle dom id i w) inputs w.

End DecisionTree.

Import DecisionTree.

(** ** What the properties speak of *)

(** The steps of the graph, as values. *)
Definition is_step (cfg : config) (v : value) : Prop :=
  exists x, v = Str x /\ x ∈ steps cfg.

(** The history is an array that ends with the active step. *)
Definition ends_with_active (s : state) : Prop :=
  exists h, history s = Some h /\ last h = Some (active s).

(** The invariant of the specification: the history is not empty, ends with
    the active step and holds steps of the graph only. *)
Definition history_invariant (cfg : config) (s : state) : Prop :=
  exists h, history s = Some h /\ h <> [] /\ last h = Some (active s)
            /\ Forall (is_step cfg) h.

(** The filter as the specification words it: an expression is a
    comma-separated list of AND-groups, a group a space-separated list of
    identifiers (the white space around a group is not part of it). *)
Definition and_groups (expression : string) : list string := split "," expression.

Definition identifiers (group : string) : list string := split " " (trim group).

Definition group_satisfied (history : list value) (group : string) : Prop :=
  forall x, x ∈ identifiers group -> Str x ∈ history.

Definition passSatisfied (history : list value) (entry : info) : Prop :=
  match data_pass_filter entry with
  | Some expression =>
      forall group, group ∈ and_groups expression -> group_satisfied history group
  | None => True
  end.

Definition stopSatisfied (history : list value) (entry : info) : Prop :=
  match data_stop_filter entry with
  | Some expression =>
      exists group, group ∈ and_groups expression /\ group_satisfied history group
  | None => False
  end.

(** A transition is reported, in the widest sense, when it throws or sends
    anything out. *)
Definition reported (before : world) (outcome : result unit * world) : Prop :=
  (exists e, fst outcome = Throw e) \/ trace (snd outcome) <> trace before.

(** A page for the examples: steps [start], [q2] and [end], nothing that
    throws. *)
Definition page : DOM :=
  {| step_elements := [Some "start"; Some "q2"; Some "end"];
     answer_elements := [(true, true); (true, true)];
     summary_entries := [];
     showSummary_throws := fun _ => false;
     trackAttribute_throws := fun _ => false;
     buttons_missing := false |}.

Definition fresh (s : string) : state :=
  {| st_first_step := Str s; active := Str s; history := Some [Str s] |}.

(** What [trackAnswer] leaves in [this.storage] when the history is an
    array. *)
Definition answered (s : state) (h : list value) (nextStep : string) : state :=
  {| st_first_step := st_first_step s;
     active := Str nextStep;
     history := Some (h ++ [Str nextStep]) |}.

(** What [trackBackButton] leaves when the history has a step to go back
    to. *)
Definition popped (s : state) (h : list value) : state :=
  {| st_first_step := st_first_step s;
     active := at_index h (length h - 2);
     history := Some (removelast h) |}.

(** What [trackRestartButton] leaves. *)
Definition restarted (cfg : config) (s : state) : state :=
  {| st_first_step := st_first_step s;
     active := first_step cfg;
     history := Some [first_step cfg] |}.

(** A computation is silent when it writes neither [this.storage] nor
    [localStorage], whether it returns or throws. *)
Definition silent {A : Type} (m : M A) : Prop :=
  forall w, storage (snd (m w)) = storage w
            /\ localStorage (snd (m w)) = localStorage w.

(** The outcome of a computation that ends with [_saveStorage()] and is
    silent before: it saves the record, or throws before and writes
    nothing. *)
Definition saves_or_throws (cfg : config) (m : M unit) : Prop :=
  forall w,
    storage (snd (m w)) = storage w
    /\ ((exists e, fst (m w) = Throw e) /\ localStorage (snd (m w)) = localStorage w
        \/ fst (m w) = Ok tt
           /\ localStorage (snd (m w))
              = _saveStorage cfg (Tree (storage w)) (localStorage w)).

(** What is written for a record. *)
Definition written (s : state) : item :=
  if negb (truthy (active s)) || negb (present (history s))
  then None
  else Some (json_state s).

(** The record [_validateHistory] puts in place of a stale one. *)
Definition reset (cfg : config) (record : state) : state :=
  {| st_first_step := st_first_step record;
     active := first_step cfg;
     history := Some [first_step cfg] |}.

(** The item kept for the tree, if it holds a record, holds one whose
    history ends with its active step. *)
Definition persisted_ok (tree : string) (ls : gmap string item) : Prop :=
  match default None (ls !! tree) with
  | Some s => ends_with_active s
  | None => True
  end.

(** The target of every answer of the sequence is a step of the graph. *)
Definition answers_within (cfg : config) (inputs : list input) : Prop :=
  Forall (fun i => match i with
                   | Answer nextStep _ => nextStep ∈ steps cfg
                   | Back | Restart | Load => True
                   end) inputs.

(** A world in which the record and what is persisted end with their active
    step; a world whose history holds steps of the graph. *)
Definition good (tree : string) (w : world) : Prop :=
  ends_with_active (storage w) /\ persisted_ok tree (localStorage w).

Definition members (cfg : config) (w : world) : Prop :=
  forall h, history (storage w) = Some h -> Forall (is_step cfg) h.

(** The answer is refused: something is reported and neither
    [this.storage] nor [localStorage] changes. *)
Definition answer_refused (dom : DOM) (cfg : config)
    (nextStep : string) (datakey : option string) (w : world) : Prop :=
  reported w (trackAnswer dom cfg nextStep datakey w)
  /\ storage (snd (trackAnswer dom cfg nextStep datakey w)) = storage w
  /\ localStorage (snd (trackAnswer dom cfg nextStep datakey w)) = localStorage w.

Definition at_start : world :=
  {| storage := fresh "start"; localStorage := ∅; trace := [] |}.

(** Back as the specification words it, for a history that is an array. *)
Definition back_as_specified (dom : DOM) (cfg : config) (w : world) : Prop :=
  forall h, history (storage w) = Some h ->
    (length h <= 1 ->
       reported w (trackBackButton dom cfg w)
       /\ active (storage (snd (trackBackButton dom cfg w))) = active (storage w)
       /\ history (storage (snd (trackBackButton dom cfg w))) = Some h)
    /\ (1 < length h ->
          active (storage (snd (trackBackButton dom cfg w))) = at_index h (length h - 2)
          /\ history (storage (snd (trackBackButton dom cfg w))) = Some (removelast h)
          /\ localStorage (snd (trackBackButton dom cfg w)) !! id cfg
             = Some (Some (json_state (storage (snd (trackBackButton dom cfg w)))))).

(** After the answer whose target is the empty string (an answer with
    [href="#"]) and a second answer. *)
Definition after_empty_target : world :=
  {| storage := {| st_first_step := Str "start"; active := Str "q2";
                   history := Some [Str "start"; Str ""; Str "q2"] |};
     localStorage := ∅; trace := [] |}.

Definition at_q2 : world :=
  {| storage := {| st_first_step := Str "start"; active := Str "q2";
                   history := Some [Str "start"; Str "q2"] |};
     localStorage := ∅; trace := [] |}.

(** Save as the specification words it: the item of the tree is cleaned
    when the active step is unset or the history is unset or empty, and
    holds the record otherwise. *)
Definition save_as_specified (cfg : config) (s : state) (ls : gmap string item) : Prop :=
  (active s = Undefined \/ history s = None \/ history s = Some [] ->
   _saveStorage cfg (Tree s) ls !! id cfg = Some None)
  /\ (~ (active s = Undefined \/ history s = None \/ history s = Some []) ->
      _saveStorage cfg (Tree s) ls !! id cfg = Some (Some (json_state s))).

(** A computation only adds to what was sent out. *)
Definition extends {A : Type} (m : M A) : Prop :=
  forall w, exists events, trace (snd (m w)) = trace w ++ events.

(** The construction fails: an exception escapes [new DecisionTree(id)]. *)
Definition construction_fails (dom : DOM) (tree : string)
    (ls : gmap string item) (tr : list event) : Prop :=
  exists e ls' tr', constructor dom tree ls tr = Failed e ls' tr'.

(** A page without a step: the element of the active step is not found. *)
Definition empty_page : DOM :=
  {| step_elements := [];
     answer_elements := [];
     summary_entries := [];
     showSummary_throws := fun _ => true;
     trackAttribute_throws := fun _ => false;
     buttons_missing := false |}.

(** ** The rest of the script *)

(** The event [filter()] sends for the entry of index [n]. *)
Definition entry_event (history : list value) (n : nat) (entry : info) : event :=
  if show_step history entry then ShowEntry n else HideEntry n.

(** The entry declares a filter. *)
Definition has_filter (entry : info) : bool :=
  present (data_pass_filter entry) || present (data_stop_filter entry).

(** A page for the examples whose summary has three entries. *)
Definition summary_page : DOM :=
  {| step_elements := [Some "start"; Some "q2"; Some "end"];
     answer_elements := [(true, true); (true, false)];
     summary_entries :=
       [ {| data_pass_filter := None; data_stop_filter := None |};
         {| data_pass_filter := Some "start q2"; data_stop_filter := None |};
         {| data_pass_filter := Some "start"; data_stop_filter := Some "q2, end" |} ];
     showSummary_throws := fun _ => false;
     trackAttribute_throws := fun _ => false;
     buttons_missing := false |}.

(** A record read from an item that has no [history]. *)
Definition without_history : world :=
  {| storage := {| st_first_step := Str "start"; active := Str "start";
                   history := None |};
     localStorage := ∅; trace := [] |}.

(** What is persisted for the tree, if anything, is the JSON image of the
    record in [this.storage]. *)
Definition mirrors (tree : string) (w : world) : Prop :=
  match default None (localStorage w !! tree) with
  | Some record => record = json_state (storage w)
  | None => True
  end.

(** ** The listener of [DOMContentLoaded]

    [elements] are the [.decision-tree] elements of the document in order,
    each with its attribute [id] if it has one; [select id] is what
    [document.querySelector('#' + id)] finds for the constructor: the page
    of the tree, or the exception of a selector that finds nothing or is
    not one.  The result lists the trees built, each with its configuration
    and its record, and the exception that ended the loop, if any. *)
Record loaded : Type := Loaded {
  trees : list (config * state);
  stored : gmap string item;
  sent : list event;
  escaped : option exn
}.

Fixpoint onDOMContentLoaded (select : string -> result DOM)
    (elements : list (option string)) (ls : gmap string item) (tr : list event)
  : loaded :=
  match elements with
  | [] => {| trees := []; stored := ls; sent := tr; escaped := None |}
  | None :: rest =>
      onDOMContentLoaded select rest ls (tr ++ [Warn "Decision tree does not have ID."])
  | Some tree :: rest =>
      match select tree with
      | Throw e => {| trees := []; stored := ls; sent := tr; escaped := Some e |}
      | Ok dom =>
          match constructor dom tree ls tr with
          | Instance cfg w =>
              let r := onDOMContentLoaded select rest (localStorage w) (trace w) in
              {| trees := (cfg, storage w) :: trees r; stored := stored r;
                 sent := sent r; escaped := escaped r |}
          | Failed e ls' tr' =>
              {| trees := []; stored := ls'; sent := tr'; escaped := Some e |}
          end
      end
  end.

(** The identifiers of the elements that have one, in order. *)
Definition identified (elements : list (option string)) : list string :=
  omap (fun el : option string => el) elements.

(** A document for the examples: the tree of [page], an element without
    identifier, and an element whose identifier is not a selector. *)
Definition select_page (tree : string) : result DOM :=
  if String.eqb tree "tree" then Ok page
  else if String.eqb tree "other" then Ok empty_page
  else Throw SyntaxError.

(** * Properties *)

(** ** The filter of the summary entries *)

Section Filter.

Variable history : list value.

Lemma strict_eq_Str (v : value) (x : string) :
  strict_eq v (Str x) = true <-> v = Str x.
Proof.
  destruct v as [| |s]; simpl; try (split; [discriminate | congruence]).
  rewrite String.eqb_eq. split; congruence.
Qed.

Lemma includes_elem_of (x : string) :
  includes history x = true <-> Str x ∈ history.
Proof.
  unfold includes. rewrite existsb_exists. split.
  - intros (v & Hin & Heq). apply strict_eq_Str in Heq. subst v.
    by apply list_elem_of_In.
  - intros Hin. exists (Str x). split; [by apply list_elem_of_In|].
    by apply strict_eq_Str.
Qed.

Lemma is_in_history_spec (group : string) :
  is_in_history history (trim group) = true <-> group_satisfied history group.
Proof.
  unfold is_in_history, group_satisfied, identifiers.
  rewrite forallb_forall. split.
  - intros H x Hx. apply includes_elem_of, H. by apply list_elem_of_In.
  - intros H x Hx. apply includes_elem_of, H. by apply list_elem_of_In.
Qed.

(** The loop over the stop groups with its flag: the flag goes down at the
    first satisfied group and never comes back up. *)
Lemma stop_loop (groups : list string) (flag : bool) :
  fold_left (fun show_step and =>
               let result := is_in_history history (trim and) in
               if show_step && result then false else show_step)
            groups flag
  = flag && negb (existsb (fun and => is_in_history history (trim and)) groups).
Proof.
  revert flag. induction groups as [|g groups IH]; intros flag; simpl.
  - by rewrite andb_true_r.
  - rewrite IH. destruct flag, (is_in_history history (trim g)); reflexivity.
Qed.

Lemma pass_check_spec (expression : string) :
  forallb (fun and => is_in_history history (trim and)) (split "," expression) = true
  <-> (forall group, group ∈ and_groups expression -> group_satisfied history group).
Proof.
  unfold and_groups. rewrite forallb_forall. split.
  - intros H g Hg. apply is_in_history_spec, H. by apply list_elem_of_In.
  - intros H g Hg. apply is_in_history_spec, H. by apply list_elem_of_In.
Qed.

Lemma stop_check_spec (expression : string) :
  existsb (fun and => is_in_history history (trim and)) (split "," expression) = true
  <-> (exists group, group ∈ and_groups expression /\ group_satisfied history group).
Proof.
  unfold and_groups. rewrite existsb_exists. split.
  - intros (g & Hg & H). exists g. split; [by apply list_elem_of_In|].
    by apply is_in_history_spec.
  - intros (g & Hg & H). exists g. split; [by apply list_elem_of_In|].
    by apply is_in_history_spec.
Qed.

Lemma show_step_unfold (entry : info) :
  show_step history entry
  = match data_pass_filter entry with
    | Some v => forallb (fun and => is_in_history history (trim and)) (split "," v)
    | None => true
    end
    && match data_stop_filter entry with
       | Some v => negb (existsb (fun and => is_in_history history (trim and)) (split "," v))
       | None => true
       end.
Proof.
  unfold show_step. destruct (data_stop_filter entry) as [v|].
  - apply stop_loop.
  - by rewrite andb_true_r.
Qed.

Lemma show_step_spec (entry : info) :
  show_step history entry = true
  <-> passSatisfied history entry /\ ~ stopSatisfied history entry.
Proof.
  rewrite show_step_unfold, andb_true_iff.
  unfold passSatisfied, stopSatisfied.
  assert (Hp : match data_pass_filter entry with
               | Some v => forallb (fun and => is_in_history history (trim and))
                                   (split "," v)
               | None => true
               end = true
               <-> match data_pass_filter entry with
                   | Some expression =>
                       forall group, group ∈ and_groups expression ->
                                     group_satisfied history group
                   | None => True
                   end).
  { destruct (data_pass_filter entry) as [v|]; [apply pass_check_spec | tauto]. }
  assert (Hs : match data_stop_filter entry with
               | Some v => negb (existsb (fun and => is_in_history history (trim and))
                                         (split "," v))
               | None => true
               end = true
               <-> ~ match data_stop_filter entry with
                     | Some expression =>
                         exists group, group ∈ and_groups expression
                                       /\ group_satisfied history group
                     | None => False
                     end).
  { destruct (data_stop_filter entry) as [v|]; [|tauto].
    rewrite negb_true_iff, <- stop_check_spec.
    destruct (existsb _ _); split; congruence. }
  tauto.
Qed.

Lemma empty_pass_spec (stop : option string) :
  passSatisfied history {| data_pass_filter := Some ""; data_stop_filter := stop |}
  <-> Str "" ∈ history.
Proof.
  unfold passSatisfied, and_groups, group_satisfied, identifiers. simpl. split.
  - intros H. apply (H ""); apply list_elem_of_singleton; reflexivity.
  - intros H g Hg x Hx. apply list_elem_of_singleton in Hg. subst g.
    simpl in Hx. apply list_elem_of_singleton in Hx. by subst x.
Qed.

(** C3.  For every history and every summary entry, the entry is shown
    exactly when every comma-separated AND-group of its pass expression has
    all its space-separated identifiers in the history (nothing to check
    without a pass expression) and no AND-group of its stop expression has
    all its identifiers in the history:
    visible = passSatisfied AND NOT stopSatisfied. *)
Theorem filter_visible_iff_pass_and_not_stop (entry : info) :
  show_step history entry = true
  <-> passSatisfied history entry /\ ~ stopSatisfied history entry.
Proof. apply show_step_spec. Qed.

(** C10, as the code has it.  An entry whose pass expression is the empty
    string has one AND-group with the empty identifier as its only token:
    it is shown exactly when the history holds the empty identifier and no
    stop group is satisfied, so never for a history without the empty
    identifier. *)
Theorem empty_pass_visible_iff_empty_identifier_in_history (stop : option string) :
  show_step history {| data_pass_filter := Some ""; data_stop_filter := stop |} = true
  <-> Str "" ∈ history
      /\ ~ stopSatisfied history {| data_pass_filter := Some ""; data_stop_filter := stop |}.
Proof.
  rewrite show_step_spec, (empty_pass_spec stop). tauto.
Qed.

End Filter.

(** C10 as stated fails: after an answer whose target is the empty string
    (an answer with [href="#"]) the history holds the empty identifier, and
    the entry whose pass expression is empty is shown. *)
Lemma empty_pass_is_shown_after_empty_target :
  show_step [Str "start"; Str ""]
    {| data_pass_filter := Some ""; data_stop_filter := None |} = true
  /\ history (storage (snd (trackAnswer page (config_of page "tree") "" None
                              {| storage := fresh "start"; localStorage := ∅;
                                 trace := [] |})))
     = Some [Str "start"; Str ""].
Proof. split; vm_compute; reflexivity. Qed.

(** The examples of the specification for the filter. *)
Example filter_pass_both :
  show_step [Str "a"; Str "b"]
    {| data_pass_filter := Some "a b"; data_stop_filter := None |} = true.
Proof. reflexivity. Qed.

Example filter_pass_missing :
  show_step [Str "a"; Str "b"]
    {| data_pass_filter := Some "a c"; data_stop_filter := None |} = false.
Proof. reflexivity. Qed.

Example filter_stop_overrides :
  show_step [Str "a"; Str "b"]
    {| data_pass_filter := Some "a"; data_stop_filter := Some "b" |} = false.
Proof. reflexivity. Qed.

Example filter_groups_are_trimmed :
  show_step [Str "a"; Str "b"]
    {| data_pass_filter := Some "a, b"; data_stop_filter := None |} = true.
Proof. reflexivity. Qed.

Example split_comma : split "," "a b, c,,d" = ["a b"; " c"; ""; "d"].
Proof. reflexivity. Qed.

Example split_empty : split " " "" = [""].
Proof. reflexivity. Qed.

Example trim_both : trim "  a b  " = "a b".
Proof. reflexivity. Qed.

Example indexOf_hit : indexOf ["a"; "b"] (Str "b") = 1%Z.
Proof. reflexivity. Qed.

Example indexOf_miss : indexOf ["a"; "b"] Null = (-1)%Z.
Proof. reflexivity. Qed.

(** ** The transitions *)

Ltac split_test :=
  match goal with
  | |- context [if ?b then _ else _] =>
      lazymatch type of b with bool => destruct b eqn:? end
  | |- context [match ?o with Some _ => _ | None => _ end] =>
      is_var o; destruct o
  end.

Ltac run_method :=
  cbv beta iota zeta delta
      [trackAnswer trackBackButton trackRestartButton
       set_active set_history history_array this_saveStorage this_storage_get
       this_storage_set trackAttribute _showSummary _cleanHTML toggleFooter
       hide show trackGA emit bind ret throw];
  repeat first
    [ progress cbv beta iota zeta delta
               [storage localStorage trace history active st_first_step fst snd]
    | split_test ].

Section Transitions.

Variable dom : DOM.
Variable cfg : config.

Lemma trackAnswer_world (nextStep : string) (datakey : option string)
    (w : world) (h : list value) :
  history (storage w) = Some h ->
  storage (snd (trackAnswer dom cfg nextStep datakey w))
    = answered (storage w) h nextStep
  /\ localStorage (snd (trackAnswer dom cfg nextStep datakey w))
    = _saveStorage cfg (Tree (answered (storage w) h nextStep)) (localStorage w).
Proof.
  destruct w as [[fs a oh] ls tr]. intros Hh.
  cbv [storage history] in Hh. subst oh. unfold answered.
  run_method; split; reflexivity.
Qed.

Lemma trackBackButton_short (w : world) (h : list value) :
  history (storage w) = Some h -> length h <= 1 ->
  trackBackButton dom cfg w = (Ok tt, w).
Proof.
  destruct w as [[fs a oh] ls tr]. intros Hh Hlen.
  cbv [storage history] in Hh. subst oh.
  apply Nat.leb_le in Hlen.
  run_method; congruence.
Qed.

Lemma trackBackButton_pop (w : world) (h : list value) :
  history (storage w) = Some h -> 1 < length h ->
  storage (snd (trackBackButton dom cfg w)) = popped (storage w) h
  /\ localStorage (snd (trackBackButton dom cfg w))
     = _saveStorage cfg (Tree (popped (storage w) h)) (localStorage w).
Proof.
  destruct w as [[fs a oh] ls tr]. intros Hh Hlen.
  cbv [storage history] in Hh. subst oh. unfold popped.
  assert (Hleb : Nat.leb (length h) 1 = false) by (apply Nat.leb_gt; lia).
  run_method; try congruence; split; reflexivity.
Qed.

Lemma trackBackButton_no_history (w : world) :
  history (storage w) = None ->
  trackBackButton dom cfg w = (Throw TypeError, w).
Proof.
  destruct w as [[fs a oh] ls tr]. intros Hh.
  cbv [storage history] in Hh. subst oh. reflexivity.
Qed.

Lemma trackRestartButton_world (w : world) :
  storage (snd (trackRestartButton dom cfg w)) = restarted cfg (storage w)
  /\ localStorage (snd (trackRestartButton dom cfg w))
     = _saveStorage cfg (Tree (restarted cfg (storage w))) (localStorage w).
Proof.
  destruct w as [[fs a oh] ls tr]. unfold restarted.
  run_method; split; reflexivity.
Qed.

Lemma silent_ret {A : Type} (a : A) : silent (ret a).
Proof. intros w. split; reflexivity. Qed.

Lemma silent_throw {A : Type} (e : exn) : silent (@throw A e).
Proof. intros w. split; reflexivity. Qed.

Lemma silent_emit (e : event) : silent (emit e).
Proof. intros w. split; reflexivity. Qed.

Lemma silent_get : silent this_storage_get.
Proof. intros w. split; reflexivity. Qed.

Lemma silent_bind {A B : Type} (m : M A) (k : A -> M B) :
  silent m -> (forall a, silent (k a)) -> silent (bind m k).
Proof.
  intros Hm Hk w. unfold bind.
  destruct (Hm w) as [Hs Hl]. destruct (m w) as [[a|e] w']; cbn [snd] in *.
  - destruct (Hk a w') as [-> ->]. by split.
  - by split.
Qed.

Lemma silent_if {A : Type} (b : bool) (m1 m2 : M A) :
  silent m1 -> silent m2 -> silent (if b then m1 else m2).
Proof. by destruct b. Qed.

Lemma silent_forEach {A : Type} (body : A -> nat -> M unit) (l : list A) :
  (forall x n, silent (body x n)) -> forall n, silent (forEach body l n).
Proof.
  intros Hbody. induction l as [|x l IH]; intros n; cbn [forEach].
  - apply silent_ret.
  - apply silent_bind; [apply Hbody | intros _; apply IH].
Qed.

Create HintDb silent.
#[local] Hint Resolve silent_ret silent_throw silent_emit silent_get
  silent_if : silent.

Lemma silent_toggleFooter : silent (toggleFooter cfg).
Proof.
  unfold toggleFooter, show, hide.
  apply silent_bind; [auto with silent|]. intros s. auto with silent.
Qed.

Lemma silent_showSummary : silent (_showSummary dom).
Proof.
  unfold _showSummary, _cleanHTML.
  apply silent_bind; [auto with silent|]. intros _.
  apply silent_bind; [auto with silent|]. intros s. auto with silent.
Qed.

Lemma silent_trackAttribute (step : value) : silent (trackAttribute dom step).
Proof. unfold trackAttribute. auto with silent. Qed.

Lemma silent_filter : silent (filter dom).
Proof.
  unfold filter. apply silent_forEach. intros entry n.
  apply silent_bind; [auto with silent|]. intros s.
  destruct (history s); auto with silent.
Qed.

Lemma saves_this_saveStorage : saves_or_throws cfg (this_saveStorage cfg).
Proof. intros w. split; [reflexivity|]. right. split; reflexivity. Qed.

Lemma saves_after_silent {A : Type} (m : M A) (k : A -> M unit) :
  silent m -> (forall a, saves_or_throws cfg (k a)) -> saves_or_throws cfg (bind m k).
Proof.
  intros Hm Hk w. unfold bind.
  destruct (Hm w) as [Hs Hl]. destruct (m w) as [[a|e] w']; cbn [fst snd] in *.
  - destruct (Hk a w') as [Hs' Hcases]. rewrite Hs', Hs, Hl in *.
    split; [reflexivity | exact Hcases].
  - split; [exact Hs|]. left. split; [by exists e | exact Hl].
Qed.

(** [activate()] never throws; it leaves [this.storage] as it is and either
    saves it or, when the page does not have the structure, leaves
    [localStorage] as it is too. *)
Lemma activate_world (w : world) :
  exists w', activate dom cfg w = (Ok tt, w')
    /\ storage w' = storage w
    /\ (localStorage w' = localStorage w
        \/ localStorage w' = _saveStorage cfg (Tree (storage w)) (localStorage w)).
Proof.
  unfold activate, try_catch.
  match goal with |- context [match ?body w with _ => _ end] =>
    assert (Hbody : saves_or_throws cfg body) end.
  { unfold trackGA, hide, show.
    repeat (apply saves_after_silent;
            [first [ apply silent_toggleFooter | apply silent_showSummary
                   | apply silent_filter | auto with silent ] | intros ?]).
    apply saves_this_saveStorage. }
  destruct (Hbody w) as [Hs Hcases]. clear Hbody.
  match goal with |- context [match ?b with _ => _ end] =>
    destruct b as [[[]|e] w'] end; cbn [fst snd] in *.
  - exists w'. split; [reflexivity|]. split; [exact Hs|].
    destruct Hcases as [[[e He] _]|[_ Hl]]; [discriminate | by right].
  - eexists. split; [reflexivity|].
    cbv beta iota zeta delta [hide emit bind storage localStorage trace fst snd].
    destruct Hcases as [[_ Hl]|[He _]]; [|discriminate].
    split; [exact Hs | left; exact Hl].
Qed.

End Transitions.

(** ** Saving and loading *)

Section Store.

Variable cfg : config.

(** The clean-up of [_saveStorage()] when [this.storage] is the whole
    parsed item: its properties [active] and [history] are not both
    there. *)
Lemma whole_item_is_cleaned (o : item) :
  negb (present (property cfg o "active")) || negb (present (property cfg o "history"))
  = true.
Proof.
  unfold property.
  destruct (String.eqb_spec (id cfg) "active") as [Ha|Ha];
    destruct (String.eqb_spec (id cfg) "history") as [Hh|Hh];
    try reflexivity.
  - rewrite Ha in Hh. discriminate.
  - by rewrite orb_true_r.
Qed.

Lemma saveStorage_tree (s : state) (ls : gmap string item) :
  _saveStorage cfg (Tree s) ls = <[id cfg := written s]> ls.
Proof.
  unfold _saveStorage, written.
  by destruct (negb (truthy (active s)) || negb (present (history s))).
Qed.

Lemma last_map_json (h : list value) (x : string) :
  last h = Some (Str x) -> last (map json_element h) = Some (Str x).
Proof.
  intros Hlast. apply last_Some in Hlast as [h' ->].
  rewrite map_app. simpl. apply last_snoc.
Qed.

Lemma written_ends_with_active (s s' : state) :
  ends_with_active s -> written s = Some s' -> ends_with_active s'.
Proof.
  intros (h & Hh & Hlast). unfold written.
  destruct (active s) as [| |x] eqn:Hactive; simpl; try discriminate.
  destruct (negb (negb (String.eqb x "")) || negb (present (history s)));
    [discriminate|].
  intros [= <-]. exists (map json_element h). unfold json_state. simpl.
  rewrite Hh, Hactive. split; [reflexivity|]. by apply last_map_json.
Qed.

(** Membership in the steps, as [_validateHistory] tests it. *)
Lemma indexOf_from_range (i : Z) (arr : list string) (val : value) :
  indexOf_from i arr val = (-1)%Z \/ (i <= indexOf_from i arr val)%Z.
Proof.
  revert i. induction arr as [|x arr IH]; intros i; cbn [indexOf_from]; [by left|].
  destruct (strict_eq (Str x) val); [right; lia|].
  destruct (IH (i + 1)%Z) as [->| H]; [by left | right; lia].
Qed.

Lemma indexOf_from_found (i : Z) (arr : list string) (val : value) :
  (0 <= i)%Z ->
  Z.eqb (indexOf_from i arr val) (-1) = false
  <-> exists x, val = Str x /\ x ∈ arr.
Proof.
  revert i. induction arr as [|x arr IH]; intros i Hi; cbn [indexOf_from].
  - split; [discriminate|]. intros (y & _ & Hy). by apply not_elem_of_nil in Hy.
  - destruct (strict_eq (Str x) val) eqn:Heq.
    + split.
      * intros _. exists x. split; [|by left].
        destruct val as [| |y]; simpl in Heq; try discriminate.
        apply String.eqb_eq in Heq. by subst.
      * intros _. apply Z.eqb_neq. lia.
    + rewrite (IH (i + 1)%Z) by lia. split.
      * intros (y & -> & Hy). exists y. split; [reflexivity | by right].
      * intros (y & -> & Hy). exists y. split; [reflexivity|].
        apply elem_of_cons in Hy as [->|Hy]; [|exact Hy].
        simpl in Heq. rewrite String.eqb_refl in Heq. discriminate.
Qed.

Lemma valid_history_spec (h : list value) :
  forallb (fun val => negb (Z.eqb (indexOf (steps cfg) val) (-1))) h = true
  <-> Forall (is_step cfg) h.
Proof.
  rewrite forallb_forall, Forall_forall. unfold is_step, indexOf.
  split; intros H v Hv.
  - apply list_elem_of_In in Hv. apply H in Hv.
    apply negb_true_iff in Hv. by apply indexOf_from_found in Hv.
  - apply negb_true_iff, indexOf_from_found; [lia|].
    apply H. by apply list_elem_of_In.
Qed.

(** [_loadStorage(id)] case by case.  It never throws. *)
Lemma loadStorage_absent (ls : gmap string item) :
  default None (ls !! id cfg) = None ->
  _loadStorage cfg ls
  = (Ok {| st_first_step := first_step cfg; active := first_step cfg;
           history := Some [first_step cfg] |}, ls).
Proof. unfold _loadStorage. by intros ->. Qed.

Lemma loadStorage_stale (ls : gmap string item) (record : state) (h : list value) :
  ls !! id cfg = Some (Some record) ->
  history record = Some h -> h <> [] -> steps cfg <> [] ->
  ~ Forall (is_step cfg) h ->
  _loadStorage cfg ls = (Ok (reset cfg record), <[id cfg := @None state]> ls).
Proof.
  intros Hls Hh Hne Hsteps Hstale.
  assert (Hlen : Nat.ltb 0 (length h) && Nat.ltb 0 (length (steps cfg)) = true).
  { destruct h; [done|]. by destruct (steps cfg). }
  unfold _loadStorage, _validateHistory. rewrite Hls.
  cbv beta iota zeta delta [from_option Datatypes.id]. rewrite Hh, Hlen. cbv beta iota zeta delta [from_option Datatypes.id].
  destruct (forallb _ h) eqn:Hvalid.
  - apply valid_history_spec in Hvalid. contradiction.
  - reflexivity.
Qed.

Lemma loadStorage_kept (ls : gmap string item) (record : state) :
  ls !! id cfg = Some (Some record) ->
  (forall h, history record = Some h -> h <> [] -> steps cfg <> [] ->
             Forall (is_step cfg) h) ->
  _loadStorage cfg ls = (Ok record, ls).
Proof.
  intros Hls Hvalid.
  unfold _loadStorage, _validateHistory. rewrite Hls.
  cbv beta iota zeta delta [from_option Datatypes.id].
  destruct (history record) as [h|] eqn:Hh; cbv beta iota zeta delta [from_option Datatypes.id]; [|reflexivity].
  destruct (Nat.ltb 0 (length h) && Nat.ltb 0 (length (steps cfg))) eqn:Hlen;
    [|reflexivity].
  destruct (forallb _ h) eqn:Hv; [reflexivity|].
  apply andb_true_iff in Hlen as [Hh0 Hs0].
  assert (Forall (is_step cfg) h) as Hall.
  { apply (Hvalid h); [reflexivity | |].
    - intros ->. discriminate.
    - intros Hs. rewrite Hs in Hs0. discriminate. }
  apply valid_history_spec in Hall. congruence.
Qed.

End Store.

(** ** A session: the invariant of the history *)

Section Session.

Variable dom : DOM.
Variable tree : string.

Local Abbreviation cfg := (config_of dom tree).

Lemma first_is_step : steps cfg <> [] -> is_step cfg (first_step cfg).
Proof.
  unfold config_of. cbn [steps first_step].
  destruct (fst (_loadSteps dom tree)) as [|x xs]; [done|].
  intros _. exists x. split; [reflexivity | by left].
Qed.

Lemma persisted_ok_save (s : state) (ls : gmap string item) :
  ends_with_active s -> persisted_ok tree (_saveStorage cfg (Tree s) ls).
Proof.
  intros Hs. rewrite saveStorage_tree. unfold persisted_ok.
  change (id cfg) with tree. rewrite lookup_insert_eq.
  cbv beta iota zeta delta [from_option Datatypes.id].
  destruct (written s) as [s'|] eqn:Hw; [|exact I].
  by apply (written_ends_with_active s).
Qed.

Lemma persisted_ok_clear (ls : gmap string item) :
  persisted_ok tree (<[tree := @None state]> ls).
Proof. unfold persisted_ok. by rewrite lookup_insert_eq. Qed.

Lemma ends_with_active_fresh (fs v : value) :
  ends_with_active {| st_first_step := fs; active := v; history := Some [v] |}.
Proof. exists [v]. split; reflexivity. Qed.

Lemma loadStorage_ok (ls : gmap string item) :
  persisted_ok tree ls ->
  exists s ls', _loadStorage cfg ls = (Ok s, ls')
    /\ ends_with_active s /\ persisted_ok tree ls'
    /\ (steps cfg <> [] -> forall h, history s = Some h -> Forall (is_step cfg) h).
Proof.
  intros Hls. unfold persisted_ok in Hls.
  destruct (default None (ls !! tree)) as [record|] eqn:Hentry.
  - assert (Hlookup : ls !! id cfg = Some (Some record)).
    { change (id cfg) with tree.
      destruct (ls !! tree) as [[r|]|]; simpl in Hentry; congruence. }
    destruct Hls as (h & Hh & Hlast).
    assert (Hne : h <> []) by (intros ->; discriminate).
    destruct (steps cfg) as [|x xs] eqn:Hsteps.
    + exists record, ls. split; [|split; [|split]].
      * apply loadStorage_kept; [exact Hlookup|]. intros h' _ _ Hs.
        by rewrite Hsteps in Hs.
      * by exists h.
      * unfold persisted_ok. by rewrite Hentry; exists h.
      * done.
    + destruct (forallb (fun val => negb (Z.eqb (indexOf (steps cfg) val) (-1))) h)
        eqn:Hvalid.
      * apply valid_history_spec in Hvalid.
        exists record, ls. split; [|split; [|split]].
        -- apply loadStorage_kept; [exact Hlookup|]. intros h' Hh' _ _. congruence.
        -- by exists h.
        -- unfold persisted_ok. by rewrite Hentry; exists h.
        -- intros _ h' Hh'. congruence.
      * exists (reset cfg record), (<[tree := @None state]> ls).
        split; [|split; [|split]].
        -- apply (loadStorage_stale cfg ls record h); try done.
           ++ by rewrite Hsteps.
           ++ intros Hall. apply valid_history_spec in Hall. congruence.
        -- apply ends_with_active_fresh.
        -- apply persisted_ok_clear.
        -- intros Hs h' [= <-]. apply Forall_singleton.
           rewrite <- Hsteps in Hs. by apply first_is_step.
  - exists {| st_first_step := first_step cfg; active := first_step cfg;
              history := Some [first_step cfg] |}, ls.
    split; [|split; [|split]].
    + by apply loadStorage_absent.
    + apply ends_with_active_fresh.
    + unfold persisted_ok. by rewrite Hentry.
    + intros Hs h' [= <-]. apply Forall_singleton. by apply first_is_step.
Qed.

(** [new DecisionTree(tree)] always gives a tree. *)
Lemma constructor_ok (ls : gmap string item) (tr : list event) :
  persisted_ok tree ls ->
  exists w, constructor dom tree ls tr = Instance cfg w
    /\ good tree w /\ (steps cfg <> [] -> members cfg w).
Proof.
  intros Hls. destruct (loadStorage_ok ls Hls) as (s & ls' & Hload & Hs & Hls' & Hmem).
  unfold constructor. destruct (_loadSteps dom tree) as [steps warnings] eqn:Hsteps.
  assert (Hcfg : {| id := tree; first_step := first_of steps; steps := steps |}
                 = cfg).
  { unfold config_of. by rewrite Hsteps. }
  cbv beta iota zeta delta [Array_isArray]. rewrite Hcfg, Hload.
  match goal with |- context [activate dom cfg ?w0] =>
    destruct (activate_world dom cfg w0) as (w & -> & Hst & Hl) end.
  cbn [storage localStorage] in Hst, Hl.
  exists w. split; [reflexivity|]. split; [split|].
  - by rewrite Hst.
  - destruct Hl as [->| ->]; [exact Hls' | by apply persisted_ok_save].
  - intros Hne h Hh. rewrite Hst in Hh. by apply Hmem.
Qed.

Lemma removelast_snoc2 (h0 : list value) (y x : value) :
  removelast (h0 ++ [y; x]) = h0 ++ [y]
  /\ at_index (h0 ++ [y; x]) (length (h0 ++ [y; x]) - 2) = y.
Proof.
  split.
  - change (h0 ++ [y; x]) with (h0 ++ [y] ++ [x]).
    rewrite app_assoc. apply removelast_last.
  - unfold at_index. rewrite length_app. cbn [length].
    replace (length h0 + 2 - 2) with (length h0) by lia.
    by rewrite list_lookup_middle.
Qed.

Lemma two_last (h : list value) :
  1 < length h -> exists h0 y x, h = h0 ++ [y; x].
Proof.
  intros Hlen.
  destruct h as [|x h _] using rev_ind; [simpl in Hlen; lia|].
  destruct h as [|y h0 _] using rev_ind; [simpl in Hlen; lia|].
  exists h0, y, x. by rewrite <- app_assoc.
Qed.

Lemma popped_ends_with_active (s : state) (h : list value) :
  1 < length h -> ends_with_active (popped s h).
Proof.
  intros Hlen. destruct (two_last h Hlen) as (h0 & y & x & ->).
  destruct (removelast_snoc2 h0 y x) as [Hrm Hat].
  exists (h0 ++ [y]). unfold popped. cbn [history active].
  rewrite Hrm, Hat. split; [reflexivity | apply last_snoc].
Qed.

Lemma Forall_removelast (P : value -> Prop) (h : list value) :
  Forall P h -> Forall P (removelast h).
Proof.
  destruct h as [|x h _] using rev_ind; [done|].
  rewrite removelast_last. intros H. by apply Forall_app in H as [H _].
Qed.

Lemma handle_good (i : input) (w : world) :
  good tree w -> good tree (handle dom tree i w).
Proof.
  intros [(h & Hh & Hlast) Hls]. unfold handle.
  destruct i as [nextStep datakey| | |].
  - destruct (trackAnswer_world dom cfg nextStep datakey w h Hh) as [Hs Hl].
    split.
    + rewrite Hs. exists (h ++ [Str nextStep]). split; [reflexivity | apply last_snoc].
    + rewrite Hl. apply persisted_ok_save.
      exists (h ++ [Str nextStep]). split; [reflexivity | apply last_snoc].
  - destruct (Nat.le_gt_cases (length h) 1) as [Hshort|Hlong].
    + rewrite (trackBackButton_short dom cfg w h Hh Hshort). cbn [snd].
      split; [by exists h | exact Hls].
    + destruct (trackBackButton_pop dom cfg w h Hh Hlong) as [Hs Hl].
      split.
      * rewrite Hs. by apply popped_ends_with_active.
      * rewrite Hl. apply persisted_ok_save. by apply popped_ends_with_active.
  - destruct (trackRestartButton_world dom cfg w) as [Hs Hl].
    split.
    + rewrite Hs. apply ends_with_active_fresh.
    + rewrite Hl. apply persisted_ok_save, ends_with_active_fresh.
  - destruct (constructor_ok (localStorage w) (trace w) Hls) as (w' & -> & Hgood & _).
    exact Hgood.
Qed.

Lemma handle_members (i : input) (w : world) :
  steps cfg <> [] ->
  match i with
  | Answer nextStep _ => nextStep ∈ steps cfg
  | Back | Restart | Load => True
  end ->
  good tree w -> members cfg w -> members cfg (handle dom tree i w).
Proof.
  intros Hsteps Hi [(h & Hh & Hlast) Hls] Hmem. unfold handle.
  pose proof (Hmem h Hh) as Hall.
  destruct i as [nextStep datakey| | |].
  - destruct (trackAnswer_world dom cfg nextStep datakey w h Hh) as [Hs _].
    intros h'. rewrite Hs. intros [= <-].
    apply Forall_app. split; [exact Hall|].
    apply Forall_singleton. by exists nextStep.
  - destruct (Nat.le_gt_cases (length h) 1) as [Hshort|Hlong].
    + by rewrite (trackBackButton_short dom cfg w h Hh Hshort).
    + destruct (trackBackButton_pop dom cfg w h Hh Hlong) as [Hs _].
      intros h'. rewrite Hs. intros [= <-]. by apply Forall_removelast.
  - destruct (trackRestartButton_world dom cfg w) as [Hs _].
    intros h'. rewrite Hs. intros [= <-].
    apply Forall_singleton. by apply first_is_step.
  - destruct (constructor_ok (localStorage w) (trace w) Hls) as (w' & -> & _ & Hm).
    by apply Hm.
Qed.

Lemma run_good (inputs : list input) (w : world) :
  good tree w -> good tree (run dom tree inputs w).
Proof.
  revert w. induction inputs as [|i inputs IH]; intros w Hw; [exact Hw|].
  apply IH. by apply handle_good.
Qed.

Lemma run_members (inputs : list input) (w : world) :
  steps cfg <> [] -> answers_within cfg inputs ->
  good tree w -> members cfg w -> members cfg (run dom tree inputs w).
Proof.
  intros Hsteps. revert w.
  induction inputs as [|i inputs IH]; intros w Hin Hw Hm; [exact Hm|].
  apply Forall_cons in Hin as [Hi Hin].
  apply IH; [exact Hin | by apply handle_good | by apply handle_members].
Qed.

End Session.

(** C1, as the code has it.  From the construction of the tree on a page,
    with nothing persisted or a persisted record whose history ends with
    its active step, and after any sequence of answers, back, restart and
    loads of the page, the history is an array, is not empty and its last
    element is the active step.  Its elements are steps of the graph when
    the graph has a step and the target of every answer of the sequence is
    one: an answer appends its target unchecked. *)
Theorem reachable_history_ends_with_active
    (dom : DOM) (tree : string) (ls : gmap string item) (tr : list event) :
  persisted_ok tree ls ->
  exists w0, constructor dom tree ls tr = Instance (config_of dom tree) w0
    /\ forall inputs,
         exists h, history (storage (run dom tree inputs w0)) = Some h
           /\ h <> []
           /\ last h = Some (active (storage (run dom tree inputs w0)))
           /\ (steps (config_of dom tree) <> [] ->
               answers_within (config_of dom tree) inputs ->
               Forall (is_step (config_of dom tree)) h).
Proof.
  intros Hls.
  destruct (constructor_ok dom tree ls tr Hls) as (w0 & Hw0 & Hgood & Hmem).
  exists w0. split; [exact Hw0|]. intros inputs.
  destruct (run_good dom tree inputs w0 Hgood) as [(h & Hh & Hlast) _].
  exists h. split; [exact Hh|]. split; [intros ->; discriminate|].
  split; [exact Hlast|]. intros Hsteps Hin.
  by apply (run_members dom tree inputs w0 Hsteps Hin Hgood (Hmem Hsteps)).
Qed.

Lemma reachable_history_ends_with_active_witness :
  persisted_ok "tree" ∅
  /\ exists w0, constructor page "tree" ∅ [] = Instance (config_of page "tree") w0
       /\ exists h,
            history (storage (run page "tree"
                                  [Answer "q2" (Some "yes"); Answer "end" None; Back; Load]
                                  w0)) = Some h
            /\ h <> []
            /\ last h
               = Some (active (storage (run page "tree"
                                            [Answer "q2" (Some "yes"); Answer "end" None;
                                             Back; Load]
                                            w0)))
            /\ (steps (config_of page "tree") <> [] ->
                answers_within (config_of page "tree")
                  [Answer "q2" (Some "yes"); Answer "end" None; Back; Load] ->
                Forall (is_step (config_of page "tree")) h).
Proof.
  assert (Hfresh : persisted_ok "tree" ∅) by exact I.
  split; [exact Hfresh|].
  destruct (reachable_history_ends_with_active page "tree" ∅ [] Hfresh)
    as (w0 & Hconstructed & Hrun).
  exists w0. split; [exact Hconstructed|].
  exact (Hrun [Answer "q2" (Some "yes"); Answer "end" None; Back; Load]).
Defined.

(** C1 as stated fails: on the page with the steps [start], [q2] and [end],
    the answer whose target is [ghost] puts [ghost] in the history. *)
Lemma unknown_answer_enters_history :
  exists w0, constructor page "tree" ∅ [] = Instance (config_of page "tree") w0
    /\ ~ history_invariant (config_of page "tree")
           (storage (run page "tree" [Answer "ghost" None] w0)).
Proof.
  eexists. split; [vm_compute; reflexivity|].
  intros (h & Hh & _ & _ & Hall). vm_compute in Hh. injection Hh as <-.
  apply Forall_cons in Hall as [_ Hall]. apply Forall_cons in Hall as [Hghost _].
  destruct Hghost as (x & [= <-] & Hx). vm_compute in Hx.
  repeat (apply elem_of_cons in Hx as [Hx|Hx]; [discriminate|]).
  by apply not_elem_of_nil in Hx.
Qed.

(** ** Answer *)

(** C4 as stated fails: [ghost] is not a step of the page, and the answer
    whose target it is makes it the active step and appends it. *)
Lemma unknown_answer_is_not_refused :
  ("ghost" ∉ steps (config_of page "tree"))
  /\ ~ answer_refused page (config_of page "tree") "ghost" None at_start
  /\ storage (snd (trackAnswer page (config_of page "tree") "ghost" None at_start))
     = {| st_first_step := Str "start"; active := Str "ghost";
          history := Some [Str "start"; Str "ghost"] |}.
Proof.
  split; [|split].
  - vm_compute. intros Hx.
    repeat (apply elem_of_cons in Hx as [Hx|Hx]; [discriminate|]).
    by apply not_elem_of_nil in Hx.
  - intros (_ & Hs & _). vm_compute in Hs. discriminate.
  - vm_compute. reflexivity.
Qed.

(** C4, as the code has it.  For every state whose history is an array and
    every answer, whether its target is a step of the graph or not, the
    target becomes the active step and is appended to the history, and the
    record is saved: the item of the tree holds it when the target is not
    the empty string and is cleaned otherwise. *)
Theorem answer_appends_any_target
    (dom : DOM) (cfg : config) (nextStep : string) (datakey : option string)
    (w : world) (h : list value) :
  history (storage w) = Some h ->
  active (storage (snd (trackAnswer dom cfg nextStep datakey w))) = Str nextStep
  /\ history (storage (snd (trackAnswer dom cfg nextStep datakey w)))
     = Some (h ++ [Str nextStep])
  /\ localStorage (snd (trackAnswer dom cfg nextStep datakey w)) !! id cfg
     = Some (if String.eqb nextStep "" then None
             else Some (json_state
                          (storage (snd (trackAnswer dom cfg nextStep datakey w))))).
Proof.
  intros Hh. destruct (trackAnswer_world dom cfg nextStep datakey w h Hh) as [Hs Hl].
  rewrite Hs, Hl, saveStorage_tree, lookup_insert_eq.
  split; [reflexivity|]. split; [reflexivity|].
  unfold written, answered. cbn [active history truthy present].
  by destruct (String.eqb nextStep "").
Qed.

Lemma answer_appends_any_target_witness :
  history (storage at_start) = Some [Str "start"]
  /\ active (storage (snd (trackAnswer page (config_of page "tree") "ghost" None at_start)))
     = Str "ghost"
  /\ history (storage (snd (trackAnswer page (config_of page "tree") "ghost" None at_start)))
     = Some ([Str "start"] ++ [Str "ghost"]).
Proof.
  split; [reflexivity|].
  destruct (answer_appends_any_target page (config_of page "tree") "ghost" None
              at_start [Str "start"] eq_refl) as (Hactive & Hhistory & _).
  split; [exact Hactive | exact Hhistory].
Defined.

(** ** Back *)

(** C5 as stated fails twice: on the first step Back returns without
    reporting anything, and when the step it goes back to is the empty
    string the item of the tree is cleaned instead of holding the record. *)
Lemma back_is_silent_and_may_clean :
  ~ back_as_specified page (config_of page "tree") at_start
  /\ ~ back_as_specified page (config_of page "tree") after_empty_target.
Proof.
  split.
  - intros H. destruct (H [Str "start"] eq_refl) as [Hshort _].
    destruct Hshort as [[[e He]|Htrace] _]; [simpl; lia | |].
    + vm_compute in He. discriminate.
    + apply Htrace. vm_compute. reflexivity.
  - intros H. destruct (H [Str "start"; Str ""; Str "q2"] eq_refl) as [_ Hlong].
    destruct Hlong as (_ & _ & Hsaved); [simpl; lia|].
    vm_compute in Hsaved. discriminate.
Qed.

(** C5, as the code has it.  When the history has at most one element Back
    returns at once: nothing is written, nothing is sent out, nothing is
    thrown.  When it has more, the active step becomes the element before
    the last, the last element is removed and the record is saved: the item
    of the tree holds it when the new active step is a non-empty string and
    is cleaned otherwise. *)
Theorem back_pops_or_returns
    (dom : DOM) (cfg : config) (w : world) (h : list value) :
  history (storage w) = Some h ->
  (length h <= 1 -> trackBackButton dom cfg w = (Ok tt, w))
  /\ (1 < length h ->
      active (storage (snd (trackBackButton dom cfg w))) = at_index h (length h - 2)
      /\ history (storage (snd (trackBackButton dom cfg w))) = Some (removelast h)
      /\ localStorage (snd (trackBackButton dom cfg w)) !! id cfg
         = Some (if truthy (at_index h (length h - 2))
                 then Some (json_state (storage (snd (trackBackButton dom cfg w))))
                 else None)).
Proof.
  intros Hh. split.
  - by apply trackBackButton_short.
  - intros Hlong. destruct (trackBackButton_pop dom cfg w h Hh Hlong) as [Hs Hl].
    rewrite Hs, Hl, saveStorage_tree, lookup_insert_eq.
    split; [reflexivity|]. split; [reflexivity|].
    unfold written, popped. cbn [active history present].
    by destruct (truthy (at_index h (length h - 2))).
Qed.

Lemma back_pops_or_returns_witness :
  (history (storage at_start) = Some [Str "start"]
   /\ trackBackButton page (config_of page "tree") at_start = (Ok tt, at_start))
  /\ (history (storage at_q2) = Some [Str "start"; Str "q2"]
      /\ active (storage (snd (trackBackButton page (config_of page "tree") at_q2)))
         = Str "start"
      /\ history (storage (snd (trackBackButton page (config_of page "tree") at_q2)))
         = Some [Str "start"]).
Proof.
  split.
  - split; [reflexivity|].
    destruct (back_pops_or_returns page (config_of page "tree") at_start [Str "start"]
                eq_refl) as [Hshort _].
    apply Hshort. simpl. lia.
  - split; [reflexivity|].
    destruct (back_pops_or_returns page (config_of page "tree") at_q2
                [Str "start"; Str "q2"] eq_refl) as [_ Hlong].
    destruct Hlong as (Hactive & Hhistory & _); [simpl; lia|].
    split; [exact Hactive | exact Hhistory].
Defined.

(** ** Restart *)

(** C7.  For every state, Restart applied twice leaves what Restart
    applied once leaves, in [this.storage] and in [localStorage]: the active
    step is the first step and the history holds the first step alone. *)
Theorem restart_twice_is_restart_once (dom : DOM) (cfg : config) (w : world) :
  let once := snd (trackRestartButton dom cfg w) in
  let twice := snd (trackRestartButton dom cfg once) in
  storage twice = storage once
  /\ localStorage twice = localStorage once
  /\ active (storage once) = first_step cfg
  /\ history (storage once) = Some [first_step cfg]
  /\ active (storage twice) = first_step cfg
  /\ history (storage twice) = Some [first_step cfg].
Proof.
  intros once twice.
  destruct (trackRestartButton_world dom cfg w) as [Hs1 Hl1].
  destruct (trackRestartButton_world dom cfg once) as [Hs2 Hl2].
  fold once in Hs1, Hl1. fold twice in Hs2, Hl2.
  assert (Hsame : storage twice = storage once).
  { rewrite Hs2, Hs1. reflexivity. }
  split; [exact Hsame|]. split.
  - rewrite Hl2, Hl1, Hs1. cbn [restarted st_first_step].
    rewrite !saveStorage_tree. apply insert_insert_eq.
  - rewrite Hsame, Hs1. repeat split; reflexivity.
Qed.

(** ** Answer, then Back *)

Lemma answer_then_back (dom : DOM) (cfg : config) (nextStep : string)
    (datakey : option string) (w : world) :
  ends_with_active (storage w) ->
  storage (snd (trackBackButton dom cfg (snd (trackAnswer dom cfg nextStep datakey w))))
  = storage w.
Proof.
  intros (h & Hh & Hlast).
  destruct (trackAnswer_world dom cfg nextStep datakey w h Hh) as [Hs _].
  set (w1 := snd (trackAnswer dom cfg nextStep datakey w)) in *.
  apply last_Some in Hlast as [h0 ->].
  assert (Hh1 : history (storage w1) = Some (h0 ++ [active (storage w); Str nextStep])).
  { rewrite Hs. unfold answered. cbn [history]. by rewrite <- app_assoc. }
  destruct (trackBackButton_pop dom cfg w1 _ Hh1) as [Hs2 _].
  { rewrite length_app. simpl. lia. }
  rewrite Hs2. unfold popped.
  destruct (removelast_snoc2 h0 (active (storage w)) (Str nextStep)) as [-> ->].
  rewrite Hs. unfold answered. cbn [st_first_step].
  destruct w as [[fs a oh] ls tr]. cbn [storage history active st_first_step] in *.
  by rewrite Hh.
Qed.

(** C8.  For every state that satisfies the invariant of the history and
    every target [x], Answer([x]) followed by Back gives back the active
    step and the history, element by element and so in length. *)
Theorem answer_then_back_restores (dom : DOM) (cfg : config) (nextStep : string)
    (datakey : option string) (w : world) (h : list value) :
  history_invariant cfg (storage w) ->
  history (storage w) = Some h ->
  let w' := snd (trackBackButton dom cfg
                   (snd (trackAnswer dom cfg nextStep datakey w))) in
  active (storage w') = active (storage w)
  /\ history (storage w') = Some h.
Proof.
  intros (h0 & Hh0 & _ & Hlast & _) Hh w'.
  assert (Hback : storage w' = storage w).
  { apply answer_then_back. by exists h0. }
  rewrite Hback. split; [reflexivity | exact Hh].
Qed.

Lemma answer_then_back_restores_witness :
  history_invariant (config_of page "tree") (storage at_q2)
  /\ history (storage at_q2) = Some [Str "start"; Str "q2"]
  /\ active (storage (snd (trackBackButton page (config_of page "tree")
                             (snd (trackAnswer page (config_of page "tree")
                                     "start" None at_q2)))))
     = Str "q2"
  /\ history (storage (snd (trackBackButton page (config_of page "tree")
                              (snd (trackAnswer page (config_of page "tree")
                                      "start" None at_q2)))))
     = Some [Str "start"; Str "q2"].
Proof.
  assert (Hinv : history_invariant (config_of page "tree") (storage at_q2)).
  { exists [Str "start"; Str "q2"].
    split; [reflexivity|]. split; [discriminate|]. split; [reflexivity|].
    apply Forall_cons. split.
    - exists "start". split; [reflexivity|]. apply list_elem_of_here.
    - apply Forall_cons. split; [|apply Forall_nil_2].
      exists "q2". split; [reflexivity|].
      apply list_elem_of_further, list_elem_of_here. }
  split; [exact Hinv|]. split; [reflexivity|].
  destruct (answer_then_back_restores page (config_of page "tree") "start" None
              at_q2 [Str "start"; Str "q2"] Hinv eq_refl) as (Hactive & Hhistory).
  split; [exact Hactive | exact Hhistory].
Defined.

(** ** Save *)

(** C6 as stated fails: a record with an active step and an empty history
    is written, not cleaned. *)
Lemma empty_history_is_written :
  ~ save_as_specified (config_of page "tree")
      {| st_first_step := Str "start"; active := Str "q2"; history := Some [] |} ∅
  /\ _saveStorage (config_of page "tree")
       (Tree {| st_first_step := Str "start"; active := Str "q2"; history := Some [] |})
       ∅ !! "tree"
     = Some (Some {| st_first_step := Str "start"; active := Str "q2";
                     history := Some [] |}).
Proof.
  split.
  - intros [Hclean _]. specialize (Hclean (or_intror (or_intror eq_refl))).
    vm_compute in Hclean. discriminate.
  - vm_compute. reflexivity.
Qed.

(** C6, as the code has it.  When the active step is falsy (unset, [null]
    or the empty string) or the history is unset, save puts the empty
    object under the identifier of the tree; for every other record, the
    one with an empty history included, it puts the record there in place
    of what was there.  The other items are left alone. *)
Theorem save_cleans_or_overwrites (cfg : config) (s : state) (ls : gmap string item) :
  (truthy (active s) = false \/ history s = None ->
   _saveStorage cfg (Tree s) ls !! id cfg = Some None)
  /\ (forall h, truthy (active s) = true -> history s = Some h ->
      _saveStorage cfg (Tree s) ls !! id cfg = Some (Some (json_state s)))
  /\ (forall key, key <> id cfg -> _saveStorage cfg (Tree s) ls !! key = ls !! key).
Proof.
  rewrite saveStorage_tree. unfold written. split; [|split].
  - rewrite lookup_insert_eq. intros [Ha|Hh].
    + by rewrite Ha.
    + rewrite Hh. cbn [present negb]. by rewrite orb_true_r.
  - intros h Ha Hh. rewrite lookup_insert_eq, Ha, Hh. reflexivity.
  - intros key Hkey. by rewrite lookup_insert_ne.
Qed.

Lemma save_cleans_or_overwrites_witness :
  (truthy (Str "") = false
   /\ _saveStorage (config_of page "tree")
        (Tree {| st_first_step := Str "start"; active := Str "";
                 history := Some [Str "start"; Str ""] |}) ∅ !! "tree"
      = Some None)
  /\ (truthy (Str "q2") = true
      /\ _saveStorage (config_of page "tree")
           (Tree {| st_first_step := Str "start"; active := Str "q2";
                    history := Some [] |}) ∅ !! "tree"
         = Some (Some (json_state {| st_first_step := Str "start"; active := Str "q2";
                                     history := Some [] |}))).
Proof.
  split.
  - split; [reflexivity|].
    destruct (save_cleans_or_overwrites (config_of page "tree")
                {| st_first_step := Str "start"; active := Str "";
                   history := Some [Str "start"; Str ""] |} ∅) as (Hclean & _ & _).
    apply Hclean. left. reflexivity.
  - split; [reflexivity|].
    destruct (save_cleans_or_overwrites (config_of page "tree")
                {| st_first_step := Str "start"; active := Str "q2";
                   history := Some [] |} ∅) as (_ & Hwrite & _).
    apply (Hwrite []); reflexivity.
Defined.

(** ** Load *)

(** C2, on the code.  With the steps [a] and [b] and the persisted history
    [a], [ghost], [b], load returns the initial state, and what it leaves
    under the identifier of the tree is the empty object, not the initial
    state: [_validateHistory] assigns the whole parsed item to
    [this.storage] before it calls [_saveStorage()]. *)
Theorem stale_history_is_reset_and_item_cleaned :
  let cfg := {| id := "tree"; first_step := Str "a"; steps := ["a"; "b"] |} in
  let persisted := {| st_first_step := Str "a"; active := Str "b";
                      history := Some [Str "a"; Str "ghost"; Str "b"] |} in
  let ls : gmap string item := <["tree" := Some persisted]> ∅ in
  fst (_loadStorage cfg ls) = Ok (fresh "a")
  /\ snd (_loadStorage cfg ls) !! "tree" = Some None
  /\ snd (_loadStorage cfg ls) !! "tree" <> Some (Some (fresh "a")).
Proof.
  intros cfg persisted ls.
  split; [vm_compute; reflexivity|].
  split; [vm_compute; reflexivity|].
  vm_compute. discriminate.
Qed.

(** At the end of the construction [activate()] saves the record of the
    tree, so the initial state is persisted then if the page has the
    structure; if it has not, the item stays the empty object. *)
Example stale_history_then_activate :
  let persisted := {| st_first_step := Str "start"; active := Str "q2";
                      history := Some [Str "start"; Str "ghost"; Str "q2"] |} in
  let ls : gmap string item := <["tree" := Some persisted]> ∅ in
  (exists w, constructor page "tree" ls [] = Instance (config_of page "tree") w
             /\ storage w = fresh "start"
             /\ localStorage w !! "tree" = Some (Some (fresh "start")))
  /\ (exists w,
        constructor {| step_elements := step_elements page;
                       answer_elements := answer_elements page;
                       summary_entries := [];
                       showSummary_throws := fun _ => false;
                       trackAttribute_throws := fun _ => false;
                       buttons_missing := true |} "tree" ls []
        = Instance (config_of page "tree") w
        /\ storage w = fresh "start"
        /\ localStorage w !! "tree" = Some None).
Proof.
  intros persisted ls. split.
  - eexists. split; [vm_compute; reflexivity|]. split; vm_compute; reflexivity.
  - eexists. split; [vm_compute; reflexivity|]. split; vm_compute; reflexivity.
Qed.

(** ** Construction *)

Lemma extends_ret {A : Type} (a : A) : extends (ret a).
Proof. intros w. exists []. by rewrite app_nil_r. Qed.

Lemma extends_throw {A : Type} (e : exn) : extends (@throw A e).
Proof. intros w. exists []. by rewrite app_nil_r. Qed.

Lemma extends_emit (e : event) : extends (emit e).
Proof. intros w. by exists [e]. Qed.

Lemma extends_get : extends this_storage_get.
Proof. intros w. exists []. by rewrite app_nil_r. Qed.

Lemma extends_saveStorage (cfg : config) : extends (this_saveStorage cfg).
Proof. intros w. exists []. by rewrite app_nil_r. Qed.

Lemma extends_bind {A B : Type} (m : M A) (k : A -> M B) :
  extends m -> (forall a, extends (k a)) -> extends (bind m k).
Proof.
  intros Hm Hk w. unfold bind.
  destruct (Hm w) as [e1 H1]. destruct (m w) as [[a|e] w1]; cbn [snd] in *.
  - destruct (Hk a w1) as [e2 H2]. exists (e1 ++ e2).
    by rewrite H2, H1, app_assoc.
  - by exists e1.
Qed.

Lemma extends_if {A : Type} (b : bool) (m1 m2 : M A) :
  extends m1 -> extends m2 -> extends (if b then m1 else m2).
Proof. by destruct b. Qed.

Lemma extends_forEach {A : Type} (body : A -> nat -> M unit) (l : list A) :
  (forall x n, extends (body x n)) -> forall n, extends (forEach body l n).
Proof.
  intros Hbody. induction l as [|x l IH]; intros n; cbn [forEach].
  - apply extends_ret.
  - apply extends_bind; [apply Hbody | intros _; apply IH].
Qed.

Lemma extends_try_catch (body handler : M unit) :
  extends body -> extends handler -> extends (try_catch body handler).
Proof.
  intros Hb Hh w. unfold try_catch.
  destruct (Hb w) as [e1 H1]. destruct (body w) as [[a|e] w1]; cbn [snd] in *.
  - by exists e1.
  - destruct (Hh w1) as [e2 H2]. exists (e1 ++ e2).
    by rewrite H2, H1, app_assoc.
Qed.

Create HintDb extends.
#[local] Hint Resolve extends_ret extends_throw extends_emit extends_get
  extends_saveStorage extends_if : extends.

Lemma extends_activate (dom : DOM) (cfg : config) : extends (activate dom cfg).
Proof.
  unfold activate, trackGA, hide, show, toggleFooter, _showSummary, _cleanHTML,
    filter, show, hide.
  apply extends_try_catch.
  - repeat first
      [ apply extends_bind; [|intros ?]
      | apply extends_forEach; intros ? ?
      | match goal with |- extends (match ?o with _ => _ end) => destruct o end
      | solve [auto with extends] ].
  - apply extends_bind; [|intros ?]; auto with extends.
Qed.

(** C9 as stated fails: on a page without a step the constructor returns a
    tree, whose first step is [undefined]. *)
Lemma empty_step_list_constructs :
  step_elements empty_page = []
  /\ ~ construction_fails empty_page "tree" ∅ []
  /\ exists w, constructor empty_page "tree" ∅ []
               = Instance {| id := "tree"; first_step := Undefined; steps := [] |} w.
Proof.
  split; [reflexivity|]. split.
  - intros (e & ls' & tr' & H). vm_compute in H. discriminate.
  - eexists. vm_compute. reflexivity.
Qed.

(** C9, as the code has it.  For a page without a step, [_loadSteps] warns
    that the tree should have at least one step and the construction goes
    on: no exception escapes the constructor, the configuration has no step
    and [undefined] as first step, and [this.storage] is the persisted
    record if there is one and otherwise the record whose active step is
    [undefined] and whose history is [[undefined]]. *)
Theorem empty_step_list_warns_and_goes_on
    (dom : DOM) (tree : string) (ls : gmap string item) (tr : list event) :
  step_elements dom = [] ->
  exists w,
    constructor dom tree ls tr
    = Instance {| id := tree; first_step := Undefined; steps := [] |} w
    /\ Warn "Decision tree should have at least one step." ∈ trace w
    /\ storage w
       = match default None (ls !! tree) with
         | Some record => record
         | None => {| st_first_step := Undefined; active := Undefined;
                      history := Some [Undefined] |}
         end.
Proof.
  intros Hempty. unfold constructor, _loadSteps. rewrite Hempty.
  cbv beta iota zeta delta [map length Nat.ltb Nat.leb Array_isArray first_of].
  set (cfg := {| id := tree; first_step := Undefined; steps := [] |}).
  set (tr0 := (tr ++ _validation dom tree)
              ++ [Warn "Decision tree should have at least one step."]).
  assert (Hload : exists s, _loadStorage cfg ls = (Ok s, ls)
            /\ s = match default None (ls !! tree) with
                   | Some record => record
                   | None => {| st_first_step := Undefined; active := Undefined;
                                history := Some [Undefined] |}
                   end).
  { destruct (default None (ls !! tree)) as [record|] eqn:Hentry.
    - exists record. split; [|reflexivity].
      apply loadStorage_kept; [|by intros h _ _ Hs].
      change (id cfg) with tree.
      destruct (ls !! tree) as [[r|]|]; simpl in Hentry; congruence.
    - eexists. split; [|reflexivity]. by apply loadStorage_absent. }
  destruct Hload as (s & -> & Hs).
  destruct (activate_world dom cfg {| storage := s; localStorage := ls; trace := tr0 |})
    as (w & Hact & Hst & _).
  destruct (extends_activate dom cfg {| storage := s; localStorage := ls; trace := tr0 |})
    as [events Htrace].
  rewrite Hact in Htrace |- *. cbn [snd trace storage] in *.
  exists w. split; [reflexivity|]. split.
  - rewrite Htrace. subst tr0. apply elem_of_app. left. apply elem_of_app. right.
    apply list_elem_of_here.
  - by rewrite Hst.
Qed.

Lemma empty_step_list_warns_and_goes_on_witness :
  step_elements empty_page = []
  /\ exists w,
       constructor empty_page "tree" ∅ []
       = Instance {| id := "tree"; first_step := Undefined; steps := [] |} w
       /\ Warn "Decision tree should have at least one step." ∈ trace w
       /\ storage w
          = match default None ((∅ : gmap string item) !! "tree") with
            | Some record => record
            | None => {| st_first_step := Undefined; active := Undefined;
                         history := Some [Undefined] |}
            end.
Proof.
  split; [reflexivity|].
  apply (empty_step_list_warns_and_goes_on empty_page "tree" ∅ []). reflexivity.
Defined.

(** ** The scenario of the specification *)

Example scenario_answers_and_back :
  exists w0, constructor page "tree" ∅ [] = Instance (config_of page "tree") w0
    /\ storage (run page "tree" [Answer "q2" None] w0)
       = {| st_first_step := Str "start"; active := Str "q2";
            history := Some [Str "start"; Str "q2"] |}
    /\ storage (run page "tree" [Answer "q2" None; Answer "end" None] w0)
       = {| st_first_step := Str "start"; active := Str "end";
            history := Some [Str "start"; Str "q2"; Str "end"] |}
    /\ storage (run page "tree" [Answer "q2" None; Answer "end" None; Back] w0)
       = {| st_first_step := Str "start"; active := Str "q2";
            history := Some [Str "start"; Str "q2"] |}.
Proof. eexists. repeat split; vm_compute; reflexivity. Qed.

Example footer_follows_history :
  exists w0, constructor page "tree" ∅ [] = Instance (config_of page "tree") w0
    /\ last (trace w0) = Some Bound
    /\ Hide "#tree .decision-tree__footer" ∈ trace w0
    /\ last (trace (run page "tree" [Answer "q2" None] w0))
       = Some (Show "#tree .decision-tree__footer")
    /\ last (removelast (trace (run page "tree" [Answer "q2" None; Restart] w0)))
       = Some (Hide "#tree .decision-tree__footer").
Proof.
  eexists. split; [vm_compute; reflexivity|]. split; [vm_compute; reflexivity|].
  split; [|split; vm_compute; reflexivity].
  vm_compute. repeat first [apply list_elem_of_here | apply list_elem_of_further].
Qed.

(** * Further properties of the script *)

(** ** [filter()] and [is_in_history()] *)

Lemma group_satisfied_same_elements (h1 h2 : list value) (group : string) :
  (forall v, v ∈ h1 <-> v ∈ h2) ->
  group_satisfied h1 group <-> group_satisfied h2 group.
Proof.
  intros Hsame. unfold group_satisfied.
  split; intros H x Hx; apply Hsame, H, Hx.
Qed.

Lemma group_satisfied_mono (h1 h2 : list value) (group : string) :
  h1 ⊆ h2 -> group_satisfied h1 group -> group_satisfied h2 group.
Proof. intros Hsub H x Hx. apply Hsub, H, Hx. Qed.

Lemma bool_eq_iff (a b : bool) : (a = true <-> b = true) -> a = b.
Proof. destruct a, b; intros [H1 H2]; try reflexivity; [symmetry|]; auto. Qed.

(** X1.  The decision of [filter()] for an entry depends on which steps are
    in the history only, not on their order or on how often they occur. *)
Theorem filter_ignores_order_and_repetition (h1 h2 : list value) (entry : info) :
  (forall v, v ∈ h1 <-> v ∈ h2) ->
  show_step h1 entry = show_step h2 entry.
Proof.
  intros Hsame. apply bool_eq_iff. rewrite !show_step_spec.
  unfold passSatisfied, stopSatisfied.
  destruct (data_pass_filter entry) as [p|], (data_stop_filter entry) as [q|].
  all: split; intros [Hp Hs]; split.
  all: try (intros g Hg; eapply group_satisfied_same_elements; [|by apply Hp];
            first [exact Hsame | intros v; symmetry; apply Hsame]).
  all: try (intros (g & Hg & Hsat); apply Hs; exists g; split; [exact Hg|];
            eapply group_satisfied_same_elements; [|exact Hsat];
            first [exact Hsame | intros v; symmetry; apply Hsame]).
  all: tauto.
Qed.

Lemma filter_ignores_order_and_repetition_witness :
  (forall v, v ∈ [Str "start"; Str "q2"] <-> v ∈ [Str "q2"; Str "start"; Str "q2"])
  /\ show_step [Str "start"; Str "q2"]
       {| data_pass_filter := Some "start q2"; data_stop_filter := Some "end" |}
     = show_step [Str "q2"; Str "start"; Str "q2"]
         {| data_pass_filter := Some "start q2"; data_stop_filter := Some "end" |}.
Proof.
  assert (Hsame : forall v, v ∈ [Str "start"; Str "q2"]
                            <-> v ∈ [Str "q2"; Str "start"; Str "q2"]).
  { intros v. rewrite !elem_of_cons. pose proof (not_elem_of_nil v). tauto. }
  split; [exact Hsame|].
  apply (filter_ignores_order_and_repetition _ _ _ Hsame).
Defined.

(** X2.  A stop filter only hides: an entry that is shown with its stop
    filter is shown without it. *)
Theorem stop_filter_only_hides (h : list value) (pass stop : option string) :
  show_step h {| data_pass_filter := pass; data_stop_filter := stop |} = true ->
  show_step h {| data_pass_filter := pass; data_stop_filter := None |} = true.
Proof.
  rewrite !show_step_unfold. cbn [data_pass_filter data_stop_filter].
  rewrite !andb_true_iff. tauto.
Qed.

Lemma stop_filter_only_hides_witness :
  show_step [Str "start"]
    {| data_pass_filter := Some "start"; data_stop_filter := Some "q2" |} = true
  /\ show_step [Str "start"]
       {| data_pass_filter := Some "start"; data_stop_filter := None |} = true.
Proof.
  split; [reflexivity|].
  apply (stop_filter_only_hides [Str "start"] (Some "start") (Some "q2")). reflexivity.
Defined.

(** X3.  When the history grows, an entry without stop filter that was
    shown stays shown, and an entry hidden by a satisfied stop group stays
    hidden. *)
Theorem filter_when_history_grows (h h' : list value) (entry : info) :
  h ⊆ h' ->
  (data_stop_filter entry = None ->
   show_step h entry = true -> show_step h' entry = true)
  /\ (stopSatisfied h entry -> show_step h' entry = false).
Proof.
  intros Hsub. split.
  - intros Hnone. rewrite !show_step_spec. unfold passSatisfied, stopSatisfied.
    rewrite Hnone. intros [Hp _]. split; [|tauto].
    destruct (data_pass_filter entry) as [p|]; [|exact I].
    intros g Hg. by apply (group_satisfied_mono h h'), Hp.
  - intros Hstop. apply not_true_is_false. rewrite show_step_spec.
    intros [_ Hs]. apply Hs. unfold stopSatisfied in *.
    destruct (data_stop_filter entry) as [q|]; [|done].
    destruct Hstop as (g & Hg & Hsat). exists g. split; [exact Hg|].
    by apply (group_satisfied_mono h h').
Qed.

Lemma filter_when_history_grows_witness :
  [Str "start"; Str "q2"] ⊆ [Str "start"; Str "q2"; Str "end"]
  /\ show_step [Str "start"; Str "q2"; Str "end"]
       {| data_pass_filter := Some "start q2"; data_stop_filter := None |} = true
  /\ show_step [Str "start"; Str "q2"; Str "end"]
       {| data_pass_filter := Some "start"; data_stop_filter := Some "q2, end" |} = false.
Proof.
  assert (Hsub : [Str "start"; Str "q2"] ⊆ [Str "start"; Str "q2"; Str "end"]).
  { intros v. rewrite !elem_of_cons. tauto. }
  split; [exact Hsub|]. split.
  - destruct (filter_when_history_grows _ _
                {| data_pass_filter := Some "start q2"; data_stop_filter := None |} Hsub)
      as [Hkeep _].
    apply Hkeep; reflexivity.
  - destruct (filter_when_history_grows _ _
                {| data_pass_filter := Some "start"; data_stop_filter := Some "q2, end" |}
                Hsub) as [_ Hhide].
    apply Hhide. exists "q2". split.
    + vm_compute. apply list_elem_of_here.
    + intros x Hx. vm_compute in Hx. apply list_elem_of_singleton in Hx. subst x.
      apply list_elem_of_further, list_elem_of_here.
Defined.

(** A loop whose body sends one event and returns, as long as the record
    satisfies [P], sends the events of its elements in order. *)
Lemma forEach_sends {A : Type} (body : A -> nat -> M unit) (f : nat -> A -> event)
    (P : state -> Prop) :
  (forall x n w, P (storage w) ->
     body x n w = (Ok tt, {| storage := storage w; localStorage := localStorage w;
                             trace := trace w ++ [f n x] |})) ->
  forall l n w, P (storage w) ->
    forEach body l n w
    = (Ok tt, {| storage := storage w; localStorage := localStorage w;
                 trace := trace w ++ imap (fun i => f (n + i)) l |}).
Proof.
  intros Hbody l. induction l as [|x l IH]; intros n w HP.
  - cbn [forEach imap]. unfold ret. rewrite app_nil_r. by destruct w.
  - cbn [forEach imap]. unfold bind. rewrite (Hbody x n w HP).
    rewrite IH by exact HP.
    cbn [storage localStorage trace]. rewrite <- app_assoc. cbn [app].
    rewrite Nat.add_0_r.
    assert (Himap : imap (fun i => f (S n + i)) l
                    = imap ((fun i => f (n + i)) ∘ S) l).
    { apply imap_ext. intros i y _. unfold compose. f_equal. lia. }
    by rewrite Himap.
Qed.

Lemma filter_with_history (dom : DOM) (w : world) (h : list value) :
  history (storage w) = Some h ->
  filter dom w
  = (Ok tt, {| storage := storage w; localStorage := localStorage w;
               trace := trace w ++ imap (entry_event h) (summary_entries dom) |}).
Proof.
  intros Hh. unfold filter.
  rewrite (forEach_sends _ (entry_event h) (fun s => history s = Some h));
    [reflexivity | | exact Hh].
  intros entry n w' Hw'. unfold bind, this_storage_get. rewrite Hw'.
  unfold entry_event. by destruct (show_step h entry).
Qed.

(** X4.  With a history that is an array, [filter()] returns, writes
    nothing and sends exactly one event for every entry of the summary, in
    the order of the entries: the entry is shown or hidden as its filters
    decide. *)
Theorem filter_decides_every_entry (dom : DOM) (w : world) (h : list value) :
  history (storage w) = Some h ->
  filter dom w
  = (Ok tt, {| storage := storage w; localStorage := localStorage w;
               trace := trace w ++ imap (entry_event h) (summary_entries dom) |}).
Proof. apply filter_with_history. Qed.

Lemma filter_decides_every_entry_witness :
  history (storage at_q2) = Some [Str "start"; Str "q2"]
  /\ filter summary_page at_q2
     = (Ok tt, {| storage := storage at_q2; localStorage := localStorage at_q2;
                  trace := [ShowEntry 0; ShowEntry 1; HideEntry 2] |}).
Proof.
  split; [reflexivity|].
  apply (filter_decides_every_entry summary_page at_q2 [Str "start"; Str "q2"]).
  reflexivity.
Defined.

Lemma filter_loop_without_history {A : Type} (body : A -> nat -> M unit)
    (filtered : A -> bool) :
  (forall x n w, history (storage w) = None -> filtered x = false ->
     body x n w = (Ok tt, {| storage := storage w; localStorage := localStorage w;
                             trace := trace w ++ [ShowEntry n] |})) ->
  (forall x n w, history (storage w) = None -> filtered x = true ->
     body x n w = (Throw TypeError, w)) ->
  forall before after n w,
    history (storage w) = None ->
    Forall (fun x => filtered x = false) before ->
    match after with
    | [] => True
    | x :: _ => filtered x = true
    end ->
    forEach body (before ++ after) n w
    = (match after with [] => Ok tt | _ :: _ => Throw TypeError end,
       {| storage := storage w; localStorage := localStorage w;
          trace := trace w ++ imap (fun i _ => ShowEntry (n + i)) before |}).
Proof.
  intros Hshow Hthrow before.
  induction before as [|x before IH]; intros after n w Hh Hbefore Hafter.
  - cbn [app imap]. rewrite app_nil_r.
    destruct after as [|x after]; cbn [forEach].
    + unfold ret. by destruct w.
    + unfold bind. rewrite (Hthrow x n w Hh Hafter). by destruct w.
  - apply Forall_cons in Hbefore as [Hx Hbefore].
    cbn [app forEach imap]. unfold bind. rewrite (Hshow x n w Hh Hx).
    rewrite (IH after (S n)
               {| storage := storage w; localStorage := localStorage w;
                  trace := trace w ++ [ShowEntry n] |} Hh Hbefore Hafter).
    cbn [storage localStorage trace]. rewrite <- app_assoc. cbn [app].
    rewrite Nat.add_0_r.
    assert (Himap : imap (fun (i : nat) (_ : A) => ShowEntry (S n + i)) before
                    = imap ((fun (i : nat) (_ : A) => ShowEntry (n + i)) ∘ S) before).
    { apply imap_ext. intros i y _. unfold compose. f_equal. lia. }
    by rewrite Himap.
Qed.

(** X5.  When [this.storage.history] is missing, [filter()] shows the
    entries up to the first one that declares a filter and throws a
    [TypeError] there; it returns, showing every entry, only if no entry
    declares a filter.  It writes nothing either way. *)
Theorem filter_without_history (dom : DOM) (w : world) :
  history (storage w) = None ->
  (Forall (fun entry => has_filter entry = false) (summary_entries dom) ->
   filter dom w
   = (Ok tt, {| storage := storage w; localStorage := localStorage w;
                trace := trace w
                         ++ imap (fun i _ => ShowEntry i) (summary_entries dom) |}))
  /\ (forall before entry after,
        summary_entries dom = before ++ entry :: after ->
        Forall (fun entry => has_filter entry = false) before ->
        has_filter entry = true ->
        filter dom w
        = (Throw TypeError,
           {| storage := storage w; localStorage := localStorage w;
              trace := trace w ++ imap (fun i _ => ShowEntry i) before |})).
Proof.
  intros Hh. unfold filter.
  match goal with |- context [forEach ?b _ _ _] => set (body := b) end.
  assert (Hshow : forall x n w', history (storage w') = None -> has_filter x = false ->
            body x n w'
            = (Ok tt, {| storage := storage w'; localStorage := localStorage w';
                         trace := trace w' ++ [ShowEntry n] |})).
  { intros x n w' Hw' Hx. subst body. unfold bind, this_storage_get.
    rewrite Hw'. unfold has_filter in Hx. by rewrite Hx. }
  assert (Hthrow : forall x n w', history (storage w') = None -> has_filter x = true ->
            body x n w' = (Throw TypeError, w')).
  { intros x n w' Hw' Hx. subst body. unfold bind, this_storage_get.
    rewrite Hw'. unfold has_filter in Hx. by rewrite Hx. }
  split.
  - intros Hall.
    rewrite <- (app_nil_r (summary_entries dom)) at 1.
    by rewrite (filter_loop_without_history body has_filter Hshow Hthrow
                  (summary_entries dom) [] 0 w Hh Hall I).
  - intros before entry after Hentries Hbefore Hentry.
    rewrite Hentries.
    by rewrite (filter_loop_without_history body has_filter Hshow Hthrow
                  before (entry :: after) 0 w Hh Hbefore Hentry).
Qed.

Lemma filter_without_history_witness :
  history (storage without_history) = None
  /\ filter summary_page without_history
     = (Throw TypeError,
        {| storage := storage without_history;
           localStorage := localStorage without_history;
           trace := [ShowEntry 0] |}).
Proof.
  split; [reflexivity|].
  destruct (filter_without_history summary_page without_history eq_refl) as [_ Hthrow].
  apply (Hthrow [ {| data_pass_filter := None; data_stop_filter := None |} ]
                {| data_pass_filter := Some "start q2"; data_stop_filter := None |}
                [ {| data_pass_filter := Some "start";
                     data_stop_filter := Some "q2, end" |} ]).
  - reflexivity.
  - apply Forall_cons. split; [reflexivity | apply Forall_nil_2].
  - reflexivity.
Defined.

(** ** [_validation()] *)

Lemma flat_map_nil_iff {A B : Type} (f : A -> list B) (l : list A) :
  flat_map f l = [] <-> Forall (fun x => f x = []) l.
Proof.
  induction l as [|x l IH]; cbn [flat_map].
  - split; [intros _; apply Forall_nil_2 | reflexivity].
  - rewrite Forall_cons, <- IH. split.
    + intros H. by apply app_eq_nil in H.
    + intros [-> ->]. reflexivity.
Qed.

(** X6.  [_validation()] warns about nothing exactly when every step
    element has the attribute [id] and every answer element has both
    [href] and [data-answer-path]. *)
Theorem validation_is_quiet_iff_attributes_are_there (dom : DOM) (tree : string) :
  _validation dom tree = []
  <-> Forall (fun el => present el = true) (step_elements dom)
      /\ Forall (fun el => fst el = true /\ snd el = true) (answer_elements dom).
Proof.
  unfold _validation. split.
  - intros H. apply app_eq_nil in H as [Hsteps Hanswers].
    apply flat_map_nil_iff in Hsteps. apply flat_map_nil_iff in Hanswers. split.
    + eapply Forall_impl; [exact Hsteps|]. intros [x|] Hx; [reflexivity | discriminate].
    + eapply Forall_impl; [exact Hanswers|]. intros [[] []] Hx; cbn in *;
        first [by split | discriminate].
  - intros [Hsteps Hanswers].
    assert (H1 : forall (A : Type) (l1 l2 : list A), l1 = [] -> l2 = [] -> l1 ++ l2 = [])
      by (intros A l1 l2 -> ->; reflexivity).
    apply H1; apply flat_map_nil_iff.
    + eapply Forall_impl; [exact Hsteps|]. intros [x|] Hx; [reflexivity | discriminate].
    + eapply Forall_impl; [exact Hanswers|]. intros [a b] [Ha Hb]. cbn in *.
      by rewrite Ha, Hb.
Qed.

(** ** [_saveStorage()], [_validateHistory()] and [_loadStorage()] together *)

Lemma json_element_step (cfg : config) (h : list value) :
  Forall (is_step cfg) h -> map json_element h = h.
Proof.
  induction 1 as [|v h (x & -> & _) _ IH]; [reflexivity|].
  cbn [map json_element]. by rewrite IH.
Qed.

Lemma coherent_first_is_step (cfg : config) :
  first_step cfg = first_of (steps cfg) -> steps cfg <> [] ->
  is_step cfg (first_step cfg).
Proof.
  intros -> Hne. destruct (steps cfg) as [|x xs] eqn:Hs; [done|].
  exists x. split; [reflexivity|]. rewrite Hs. by left.
Qed.

(** [_loadStorage(id)] returns, whatever the item is. *)
Lemma loadStorage_total (cfg : config) (ls : gmap string item) :
  exists s ls', _loadStorage cfg ls = (Ok s, ls')
    /\ (ls' = ls \/ ls' = <[id cfg := @None state]> ls)
    /\ (steps cfg <> [] -> first_step cfg = first_of (steps cfg) ->
        forall h, history s = Some h -> Forall (is_step cfg) h).
Proof.
  destruct (default None (ls !! id cfg)) as [record|] eqn:Hentry.
  - assert (Hlookup : ls !! id cfg = Some (Some record)).
    { destruct (ls !! id cfg) as [[r|]|]; simpl in Hentry; congruence. }
    destruct (history record) as [h|] eqn:Hh.
    + destruct (decide (h = [])) as [->|Hne].
      * exists record, ls. split; [|split; [by left|]].
        -- apply loadStorage_kept; [exact Hlookup|]. intros h' Hh' Hne'. congruence.
        -- intros _ _ h' Hh'. rewrite Hh in Hh'. injection Hh' as <-. apply Forall_nil_2.
      * destruct (steps cfg) as [|x xs] eqn:Hsteps.
        -- exists record, ls. split; [|split; [by left | done]].
           apply loadStorage_kept; [exact Hlookup|]. intros h' _ _ Hs.
           by rewrite Hsteps in Hs.
        -- destruct (forallb (fun val => negb (Z.eqb (indexOf (steps cfg) val) (-1))) h)
             eqn:Hvalid.
           ++ apply valid_history_spec in Hvalid.
              exists record, ls. split; [|split; [by left|]].
              ** apply loadStorage_kept; [exact Hlookup|]. intros h' Hh' _ _. congruence.
              ** intros _ _ h' Hh'. congruence.
           ++ exists (reset cfg record), (<[id cfg := @None state]> ls).
              split; [|split; [by right|]].
              ** apply (loadStorage_stale cfg ls record h); try done.
                 --- by rewrite Hsteps.
                 --- intros Hall. apply valid_history_spec in Hall. congruence.
              ** intros Hs Hfirst h' [= <-]. apply Forall_singleton.
                 apply coherent_first_is_step; by rewrite ?Hsteps.
    + exists record, ls. split; [|split; [by left|]].
      * apply loadStorage_kept; [exact Hlookup|]. intros h' Hh'. congruence.
      * intros _ _ h' Hh'. congruence.
  - exists {| st_first_step := first_step cfg; active := first_step cfg;
              history := Some [first_step cfg] |}, ls.
    split; [|split; [by left|]].
    + by apply loadStorage_absent.
    + intros Hs Hfirst h' [= <-]. apply Forall_singleton.
      by apply coherent_first_is_step.
Qed.

Lemma load_after_save (cfg : config) (s : state) (ls : gmap string item)
    (h : list value) :
  truthy (active s) = true -> history s = Some h -> Forall (is_step cfg) h ->
  _loadStorage cfg (_saveStorage cfg (Tree s) ls)
  = (Ok s, _saveStorage cfg (Tree s) ls).
Proof.
  intros Ha Hh Hall.
  assert (Hjson : json_state s = s).
  { destruct s as [fs a oh]. cbn in Hh. subst oh. unfold json_state.
    cbn [history st_first_step active option_map].
    by rewrite (json_element_step cfg h Hall). }
  apply loadStorage_kept.
  - rewrite saveStorage_tree, lookup_insert_eq. unfold written.
    rewrite Ha, Hh, Hjson. reflexivity.
  - intros h' Hh' _ _. congruence.
Qed.

(** X7.  Save, then load, gives back the record: for a record whose active
    step is a non-empty string and whose history is an array of steps of
    the graph, [_loadStorage] after [_saveStorage] returns the record as
    it was and writes nothing more. *)
Theorem save_then_load_gives_back_the_record
    (cfg : config) (s : state) (ls : gmap string item) (h : list value) :
  truthy (active s) = true -> history s = Some h -> Forall (is_step cfg) h ->
  _loadStorage cfg (_saveStorage cfg (Tree s) ls)
  = (Ok s, _saveStorage cfg (Tree s) ls).
Proof. apply load_after_save. Qed.

Lemma save_then_load_gives_back_the_record_witness :
  truthy (active (storage at_q2)) = true
  /\ history (storage at_q2) = Some [Str "start"; Str "q2"]
  /\ _loadStorage (config_of page "tree")
       (_saveStorage (config_of page "tree") (Tree (storage at_q2)) ∅)
     = (Ok (storage at_q2),
        _saveStorage (config_of page "tree") (Tree (storage at_q2)) ∅).
Proof.
  split; [reflexivity|]. split; [reflexivity|].
  apply (save_then_load_gives_back_the_record (config_of page "tree") (storage at_q2) ∅
           [Str "start"; Str "q2"]); [reflexivity | reflexivity |].
  apply Forall_cons. split.
  - exists "start". split; [reflexivity | apply list_elem_of_here].
  - apply Forall_cons. split; [|apply Forall_nil_2].
    exists "q2". split; [reflexivity|].
    apply list_elem_of_further, list_elem_of_here.
Defined.

Lemma load_after_falsy_save (cfg : config) (s : state) (ls : gmap string item) :
  truthy (active s) = false \/ history s = None ->
  _loadStorage cfg (_saveStorage cfg (Tree s) ls)
  = (Ok {| st_first_step := first_step cfg; active := first_step cfg;
           history := Some [first_step cfg] |},
     _saveStorage cfg (Tree s) ls).
Proof.
  intros Hfalsy. apply loadStorage_absent.
  rewrite saveStorage_tree, lookup_insert_eq. unfold written.
  destruct Hfalsy as [Ha|Hh].
  - by rewrite Ha.
  - rewrite Hh. cbn [present negb]. by rewrite orb_true_r.
Qed.

(** X8.  A record whose active step is falsy (unset, [null] or the empty
    string) or whose history is missing is not kept: after it is saved,
    [_loadStorage] returns the initial state of the tree. *)
Theorem falsy_record_is_forgotten (cfg : config) (s : state) (ls : gmap string item) :
  truthy (active s) = false \/ history s = None ->
  _loadStorage cfg (_saveStorage cfg (Tree s) ls)
  = (Ok {| st_first_step := first_step cfg; active := first_step cfg;
           history := Some [first_step cfg] |},
     _saveStorage cfg (Tree s) ls).
Proof. apply load_after_falsy_save. Qed.

Lemma falsy_record_is_forgotten_witness :
  truthy (Str "") = false
  /\ fst (_loadStorage (config_of page "tree")
            (_saveStorage (config_of page "tree")
               (Tree {| st_first_step := Str "start"; active := Str "";
                        history := Some [Str "start"; Str ""] |}) ∅))
     = Ok (fresh "start").
Proof.
  split; [reflexivity|].
  rewrite (falsy_record_is_forgotten (config_of page "tree")
             {| st_first_step := Str "start"; active := Str "";
                history := Some [Str "start"; Str ""] |} ∅ (or_introl eq_refl)).
  reflexivity.
Defined.



(** X10.  [_validateHistory] looks at the history only: a persisted record
    whose history holds steps of the graph is returned as it is, whatever
    its active step, and [localStorage] is not written. *)
Theorem load_does_not_check_the_active_step
    (cfg : config) (ls : gmap string item) (record : state) (h : list value) :
  ls !! id cfg = Some (Some record) ->
  history record = Some h -> Forall (is_step cfg) h ->
  _loadStorage cfg ls = (Ok record, ls).
Proof.
  intros Hls Hh Hall. apply loadStorage_kept; [exact Hls|].
  intros h' Hh' _ _. congruence.
Qed.

Lemma load_does_not_check_the_active_step_witness :
  (<["tree" := Some {| st_first_step := Str "start"; active := Str "ghost";
                       history := Some [Str "start"] |}]> (∅ : gmap string item))
    !! id (config_of page "tree")
  = Some (Some {| st_first_step := Str "start"; active := Str "ghost";
                  history := Some [Str "start"] |})
  /\ fst (_loadStorage (config_of page "tree")
            (<["tree" := Some {| st_first_step := Str "start"; active := Str "ghost";
                                 history := Some [Str "start"] |}]> ∅))
     = Ok {| st_first_step := Str "start"; active := Str "ghost";
             history := Some [Str "start"] |}.
Proof.
  split; [reflexivity|].
  rewrite (load_does_not_check_the_active_step (config_of page "tree") _
             {| st_first_step := Str "start"; active := Str "ghost";
                history := Some [Str "start"] |} [Str "start"]);
    [reflexivity | reflexivity | reflexivity |].
  apply Forall_singleton. exists "start". split; [reflexivity | apply list_elem_of_here].
Defined.

(** ** The transitions on a record without history *)

(** X11.  On a record whose [history] is missing, [trackAnswer] makes the
    target the active step and then throws a [TypeError]: the history
    stays missing and nothing is saved. *)
Theorem answer_without_history_is_half_done
    (dom : DOM) (cfg : config) (nextStep : string) (datakey : option string)
    (w : world) :
  history (storage w) = None ->
  fst (trackAnswer dom cfg nextStep datakey w) = Throw TypeError
  /\ storage (snd (trackAnswer dom cfg nextStep datakey w))
     = {| st_first_step := st_first_step (storage w); active := Str nextStep;
          history := None |}
  /\ localStorage (snd (trackAnswer dom cfg nextStep datakey w)) = localStorage w.
Proof.
  destruct w as [[fs a oh] ls tr]. intros Hh.
  cbv [storage history] in Hh. subst oh.
  run_method; repeat split; reflexivity.
Qed.

Lemma answer_without_history_is_half_done_witness :
  history (storage without_history) = None
  /\ fst (trackAnswer page (config_of page "tree") "q2" None without_history)
     = Throw TypeError
  /\ storage (snd (trackAnswer page (config_of page "tree") "q2" None without_history))
     = {| st_first_step := Str "start"; active := Str "q2"; history := None |}.
Proof.
  split; [reflexivity|].
  destruct (answer_without_history_is_half_done page (config_of page "tree") "q2" None
              without_history eq_refl) as (Hthrow & Hstorage & _).
  split; [exact Hthrow | exact Hstorage].
Defined.

(** X12.  On a record whose [history] is missing, [trackBackButton] throws
    a [TypeError] before it does anything. *)
Theorem back_without_history_throws (dom : DOM) (cfg : config) (w : world) :
  history (storage w) = None ->
  trackBackButton dom cfg w = (Throw TypeError, w).
Proof.
  destruct w as [[fs a oh] ls tr]. intros Hh.
  cbv [storage history] in Hh. subst oh. reflexivity.
Qed.

Lemma back_without_history_throws_witness :
  history (storage without_history) = None
  /\ trackBackButton page (config_of page "tree") without_history
     = (Throw TypeError, without_history).
Proof.
  split; [reflexivity|].
  apply (back_without_history_throws page (config_of page "tree") without_history).
  reflexivity.
Defined.

(** ** What the handlers and [activate()] send out *)



(** X14.  [activate()] never throws and never changes [this.storage].  On
    a history that is an array it saves the record and ends with the
    binding of the buttons when [_showSummary] returns and the buttons are
    there; otherwise it writes nothing, hides the tree and ends with the
    warning that the tree cannot be activated. *)
Theorem activate_saves_or_hides_the_tree
    (dom : DOM) (cfg : config) (w : world) (h : list value) :
  history (storage w) = Some h ->
  exists w', activate dom cfg w = (Ok tt, w')
    /\ storage w' = storage w
    /\ (showSummary_throws dom (storage w) = false -> buttons_missing dom = false ->
        localStorage w' = _saveStorage cfg (Tree (storage w)) (localStorage w)
        /\ last (trace w') = Some Bound)
    /\ (showSummary_throws dom (storage w) = true \/ buttons_missing dom = true ->
        localStorage w' = localStorage w
        /\ Hide ("#" ++ id cfg) ∈ trace w'
        /\ last (trace w')
           = Some (Warn ("Cannot activate decision tree with ID " ++ id cfg
                           ++ ". Incorrect HTML structure."))).
Proof.
  destruct w as [[fs a oh] ls tr]. intros Hh. cbv [storage history] in Hh. subst oh.
  unfold activate, try_catch.
  cbv beta iota zeta delta
      [bind this_storage_get trackGA hide show toggleFooter _showSummary _cleanHTML
       emit ret throw this_saveStorage storage localStorage trace history fst snd].
  assert (Hfilter : forall tr',
            filter dom {| storage := {| st_first_step := fs; active := a;
                                         history := Some h |};
                          localStorage := ls; trace := tr' |}
            = (Ok tt, {| storage := {| st_first_step := fs; active := a;
                                       history := Some h |};
                         localStorage := ls;
                         trace := tr' ++ imap (entry_event h) (summary_entries dom) |})).
  { intros tr'.
    exact (filter_with_history dom
             {| storage := {| st_first_step := fs; active := a; history := Some h |};
                localStorage := ls; trace := tr' |} h eq_refl). }
  destruct (Nat.ltb 1 (length h)); cbv beta iota;
    destruct (showSummary_throws dom _) eqn:Hsum; cbv beta iota;
    rewrite ?Hfilter; destruct (buttons_missing dom) eqn:Hbuttons;
    cbv beta iota zeta delta [storage localStorage trace];
    (eexists; split; [reflexivity|]; split; [reflexivity|]);
    cbv beta iota zeta delta [storage localStorage trace];
    (split; [intros ? ?; try congruence | intros [?|?]; try congruence]);
    repeat split; try reflexivity; try apply last_snoc;
    apply elem_of_app; left; apply elem_of_app; right; apply list_elem_of_here.
Qed.

Lemma activate_saves_or_hides_the_tree_witness :
  history (storage at_start) = Some [Str "start"]
  /\ exists w', activate empty_page (config_of page "tree") at_start = (Ok tt, w')
       /\ storage w' = storage at_start
       /\ localStorage w' = localStorage at_start
       /\ last (trace w')
          = Some (Warn "Cannot activate decision tree with ID tree. Incorrect HTML structure.").
Proof.
  split; [reflexivity|].
  destruct (activate_saves_or_hides_the_tree empty_page (config_of page "tree") at_start
              [Str "start"] eq_refl) as (w' & Hrun & Hstorage & _ & Hfail).
  destruct (Hfail (or_introl eq_refl)) as (Hls & _ & Hlast).
  exists w'. split; [exact Hrun|]. split; [exact Hstorage|].
  split; [exact Hls | exact Hlast].
Defined.

(** ** A session and [localStorage] *)

Lemma trackAnswer_without_history (dom : DOM) (cfg : config) (nextStep : string)
    (datakey : option string) (w : world) :
  history (storage w) = None ->
  localStorage (snd (trackAnswer dom cfg nextStep datakey w)) = localStorage w.
Proof.
  destruct w as [[fs a oh] ls tr]. intros Hh.
  cbv [storage history] in Hh. subst oh.
  run_method; reflexivity.
Qed.

(** [_loadStorage(id)] case by case on the item. *)
Lemma loadStorage_cases (cfg : config) (ls : gmap string item) :
  (default None (ls !! id cfg) = None
   /\ _loadStorage cfg ls
      = (Ok {| st_first_step := first_step cfg; active := first_step cfg;
               history := Some [first_step cfg] |}, ls))
  \/ (exists record,
        ls !! id cfg = Some (Some record)
        /\ (_loadStorage cfg ls = (Ok record, ls)
            \/ _loadStorage cfg ls
               = (Ok (reset cfg record), <[id cfg := @None state]> ls))).
Proof.
  destruct (default None (ls !! id cfg)) as [record|] eqn:Hentry.
  - right. exists record.
    assert (Hlookup : ls !! id cfg = Some (Some record)).
    { destruct (ls !! id cfg) as [[r|]|]; simpl in Hentry; congruence. }
    split; [exact Hlookup|].
    unfold _loadStorage, _validateHistory. rewrite Hlookup.
    cbv beta iota zeta delta [from_option Datatypes.id].
    destruct (_ && _); [|by left].
    destruct (negb _); [by right | by left].
  - left. split; [reflexivity|]. by apply loadStorage_absent.
Qed.

(** [new DecisionTree(id)] returns a tree whose record is the one
    [_loadStorage] returned. *)
Lemma constructor_total (dom : DOM) (tree : string)
    (ls : gmap string item) (tr : list event) :
  exists w s ls',
    constructor dom tree ls tr = Instance (config_of dom tree) w
    /\ _loadStorage (config_of dom tree) ls = (Ok s, ls')
    /\ storage w = s
    /\ (localStorage w = ls'
        \/ localStorage w = _saveStorage (config_of dom tree) (Tree s) ls').
Proof.
  destruct (loadStorage_total (config_of dom tree) ls) as (s & ls' & Hload & _ & _).
  unfold constructor. destruct (_loadSteps dom tree) as [steps warnings] eqn:Hsteps.
  assert (Hcfg : {| id := tree; first_step := first_of steps; steps := steps |}
                 = config_of dom tree).
  { unfold config_of. by rewrite Hsteps. }
  cbv beta iota zeta delta [Array_isArray]. rewrite Hcfg, Hload.
  match goal with |- context [activate dom _ ?w0] =>
    destruct (activate_world dom (config_of dom tree) w0) as (w & -> & Hst & Hl) end.
  cbn [storage localStorage] in Hst, Hl.
  exists w, s, ls'. split; [reflexivity|]. split; [reflexivity|].
  split; [exact Hst | exact Hl].
Qed.

Lemma handle_other_items (dom : DOM) (tree : string) (i : input) (w : world)
    (key : string) :
  key <> tree ->
  localStorage (handle dom tree i w) !! key = localStorage w !! key.
Proof.
  intros Hkey. unfold handle.
  assert (Hsave : forall s ls,
            _saveStorage (config_of dom tree) (Tree s) ls !! key = ls !! key).
  { intros s ls. rewrite saveStorage_tree. by apply lookup_insert_ne. }
  destruct i as [nextStep datakey| | |].
  - destruct (history (storage w)) as [h|] eqn:Hh.
    + destruct (trackAnswer_world dom (config_of dom tree) nextStep datakey w h Hh)
        as [_ ->]. apply Hsave.
    + by rewrite trackAnswer_without_history.
  - destruct (history (storage w)) as [h|] eqn:Hh.
    + destruct (Nat.le_gt_cases (length h) 1) as [Hshort|Hlong].
      * by rewrite (trackBackButton_short dom _ w h Hh Hshort).
      * destruct (trackBackButton_pop dom (config_of dom tree) w h Hh Hlong) as [_ ->].
        apply Hsave.
    + by rewrite trackBackButton_no_history.
  - destruct (trackRestartButton_world dom (config_of dom tree) w) as [_ ->].
    apply Hsave.
  - destruct (constructor_total dom tree (localStorage w) (trace w))
      as (w' & s & ls' & -> & Hload & _ & Hl).
    assert (Hls' : ls' !! key = localStorage w !! key).
    { destruct (loadStorage_total (config_of dom tree) (localStorage w))
        as (s2 & ls2 & Hload2 & Hcases & _).
      rewrite Hload in Hload2. injection Hload2 as <- <-.
      destruct Hcases as [->| ->]; [reflexivity|]. by apply lookup_insert_ne. }
    destruct Hl as [->| ->]; [exact Hls'|]. by rewrite Hsave.
Qed.

(** X15.  A tree reads and writes the item named by its identifier only:
    whatever the visitor does, the other items of [localStorage] stay as
    they are. *)
Theorem session_leaves_other_items_alone
    (dom : DOM) (tree : string) (inputs : list input) (w : world) (key : string) :
  key <> tree ->
  localStorage (run dom tree inputs w) !! key = localStorage w !! key.
Proof.
  intros Hkey. revert w. induction inputs as [|i inputs IH]; intros w; [reflexivity|].
  cbn [run fold_left]. fold (run dom tree inputs (handle dom tree i w)).
  rewrite IH. by apply handle_other_items.
Qed.

Lemma session_leaves_other_items_alone_witness :
  "other" <> "tree"
  /\ localStorage (run page "tree" [Answer "q2" None; Load; Restart; Back]
                     {| storage := fresh "start";
                        localStorage := <["other" := Some (fresh "x")]> ∅;
                        trace := [] |}) !! "other"
     = Some (Some (fresh "x")).
Proof.
  assert (Hkey : "other" <> "tree") by discriminate.
  split; [exact Hkey|].
  rewrite (session_leaves_other_items_alone page "tree" _ _ "other" Hkey).
  reflexivity.
Defined.

Lemma json_element_idempotent (v : value) :
  json_element (json_element v) = json_element v.
Proof. by destruct v. Qed.

Lemma json_state_idempotent (s : state) : json_state (json_state s) = json_state s.
Proof.
  destruct s as [fs a [h|]]; unfold json_state; cbn; [|reflexivity].
  do 2 f_equal. rewrite map_map. apply map_ext. intros v. apply json_element_idempotent.
Qed.

Lemma mirrors_after_save (dom : DOM) (tree : string) (w : world) (ls : gmap string item) :
  localStorage w = _saveStorage (config_of dom tree) (Tree (storage w)) ls ->
  mirrors tree w.
Proof.
  intros Hl. unfold mirrors. rewrite Hl, saveStorage_tree.
  change (id (config_of dom tree)) with tree. rewrite lookup_insert_eq.
  cbv beta iota zeta delta [from_option Datatypes.id]. unfold written.
  by destruct (negb (truthy (active (storage w))) || negb (present (history (storage w)))).
Qed.

Lemma constructor_mirrors (dom : DOM) (tree : string)
    (ls : gmap string item) (tr : list event) :
  match default None (ls !! tree) with
  | Some record => record = json_state record
  | None => True
  end ->
  exists w, constructor dom tree ls tr = Instance (config_of dom tree) w
            /\ mirrors tree w.
Proof.
  intros Hitem.
  destruct (constructor_total dom tree ls tr) as (w & s & ls' & Hw & Hload & Hs & Hl).
  exists w. split; [exact Hw|].
  destruct Hl as [Hl|Hl]; [|apply (mirrors_after_save dom tree w ls'); by rewrite Hs].
  destruct (loadStorage_cases (config_of dom tree) ls)
    as [[Hnone Hload']|(record & Hlookup & [Hload'|Hload'])];
    rewrite Hload in Hload'; injection Hload' as -> ->.
  - unfold mirrors. rewrite Hl. by change (id (config_of dom tree)) with tree in Hnone;
      rewrite Hnone.
  - change (id (config_of dom tree)) with tree in Hlookup.
    unfold mirrors. rewrite Hl, Hlookup, Hs. rewrite Hlookup in Hitem. exact Hitem.
  - unfold mirrors. rewrite Hl. change (id (config_of dom tree)) with tree.
    by rewrite lookup_insert_eq.
Qed.

Lemma handle_mirrors (dom : DOM) (tree : string) (i : input) (w : world) :
  good tree w -> mirrors tree w -> mirrors tree (handle dom tree i w).
Proof.
  intros [(h & Hh & Hlast) Hls] Hm. unfold handle.
  destruct i as [nextStep datakey| | |].
  - destruct (trackAnswer_world dom (config_of dom tree) nextStep datakey w h Hh)
      as [Hs Hl].
    apply (mirrors_after_save dom tree _ (localStorage w)). by rewrite Hl, Hs.
  - destruct (Nat.le_gt_cases (length h) 1) as [Hshort|Hlong].
    + by rewrite (trackBackButton_short dom _ w h Hh Hshort).
    + destruct (trackBackButton_pop dom (config_of dom tree) w h Hh Hlong) as [Hs Hl].
      apply (mirrors_after_save dom tree _ (localStorage w)). by rewrite Hl, Hs.
  - destruct (trackRestartButton_world dom (config_of dom tree) w) as [Hs Hl].
    apply (mirrors_after_save dom tree _ (localStorage w)). by rewrite Hl, Hs.
  - destruct (constructor_mirrors dom tree (localStorage w) (trace w))
      as (w' & -> & Hm'); [|exact Hm'].
    unfold mirrors in Hm. destruct (default None (localStorage w !! tree)) as [r|];
      [|exact I].
    rewrite Hm. symmetry. apply json_state_idempotent.
Qed.

Lemma run_mirrors (dom : DOM) (tree : string) (inputs : list input) (w : world) :
  good tree w -> mirrors tree w -> mirrors tree (run dom tree inputs w).
Proof.
  revert w. induction inputs as [|i inputs IH]; intros w Hgood Hm; [exact Hm|].
  apply IH; [by apply handle_good | by apply handle_mirrors].
Qed.

(** X16.  From the first visit on (nothing persisted for the tree), after
    any sequence of answers, back, restart and loads of the page, what
    [localStorage] holds for the tree is the empty object or the JSON image
    of the record in [this.storage]: never a record of another state. *)
Theorem persisted_record_mirrors_the_state
    (dom : DOM) (tree : string) (ls : gmap string item) (tr : list event) :
  default None (ls !! tree) = None ->
  exists w0, constructor dom tree ls tr = Instance (config_of dom tree) w0
    /\ forall inputs, mirrors tree (run dom tree inputs w0).
Proof.
  intros Hfresh.
  destruct (constructor_mirrors dom tree ls tr) as (w0 & Hw0 & Hm0);
    [by rewrite Hfresh|].
  destruct (constructor_ok dom tree ls tr) as (w1 & Hw1 & Hgood & _).
  { unfold persisted_ok. by rewrite Hfresh. }
  rewrite Hw0 in Hw1. injection Hw1 as <-.
  exists w0. split; [exact Hw0|]. intros inputs. by apply run_mirrors.
Qed.

Lemma persisted_record_mirrors_the_state_witness :
  default None ((∅ : gmap string item) !! "tree") = None
  /\ exists w0, constructor page "tree" ∅ [] = Instance (config_of page "tree") w0
       /\ mirrors "tree" (run page "tree" [Answer "q2" None; Answer "" None; Load; Back] w0).
Proof.
  assert (Hfresh : default None ((∅ : gmap string item) !! "tree") = None)
    by reflexivity.
  split; [exact Hfresh|].
  destruct (persisted_record_mirrors_the_state page "tree" ∅ [] Hfresh)
    as (w0 & Hw0 & Hrun).
  exists w0. split; [exact Hw0|].
  exact (Hrun [Answer "q2" None; Answer "" None; Load; Back]).
Defined.

Lemma load_of_saved_record (dom : DOM) (tree : string) (w : world)
    (s : state) (ls' : gmap string item) :
  _loadStorage (config_of dom tree) (localStorage w) = (Ok s, ls') ->
  storage (handle dom tree Load w) = s.
Proof.
  intros Hload. unfold handle.
  destruct (constructor_total dom tree (localStorage w) (trace w))
    as (w' & s2 & ls2 & -> & Hload2 & Hs & _).
  congruence.
Qed.

(** X17.  A load of the page resumes where the visitor was: after an
    answer whose target is a step of the graph other than the empty
    string, on a history of steps of the graph, the tree built by the next
    load has the record the answer left. *)
Theorem reload_resumes_after_an_answer
    (dom : DOM) (tree : string) (w : world) (nextStep : string)
    (datakey : option string) (h : list value) :
  history (storage w) = Some h ->
  Forall (is_step (config_of dom tree)) h ->
  nextStep ∈ steps (config_of dom tree) ->
  nextStep <> "" ->
  storage (handle dom tree Load (handle dom tree (Answer nextStep datakey) w))
  = storage (handle dom tree (Answer nextStep datakey) w).
Proof.
  intros Hh Hall Hstep Hne.
  destruct (trackAnswer_world dom (config_of dom tree) nextStep datakey w h Hh)
    as [Hs Hl].
  change (handle dom tree (Answer nextStep datakey) w)
    with (snd (trackAnswer dom (config_of dom tree) nextStep datakey w)).
  rewrite Hs.
  apply (load_of_saved_record dom tree
           (snd (trackAnswer dom (config_of dom tree) nextStep datakey w)) _
           (_saveStorage (config_of dom tree) (Tree (answered (storage w) h nextStep))
              (localStorage w))).
  rewrite Hl.
  apply (load_after_save _ _ _ (h ++ [Str nextStep])).
  - cbn [answered active truthy]. apply negb_true_iff. by apply String.eqb_neq.
  - reflexivity.
  - apply Forall_app. split; [exact Hall|]. apply Forall_singleton. by exists nextStep.
Qed.

Lemma reload_resumes_after_an_answer_witness :
  history (storage at_start) = Some [Str "start"]
  /\ storage (handle page "tree" Load (handle page "tree" (Answer "q2" None) at_start))
     = {| st_first_step := Str "start"; active := Str "q2";
          history := Some [Str "start"; Str "q2"] |}.
Proof.
  split; [reflexivity|].
  rewrite (reload_resumes_after_an_answer page "tree" at_start "q2" None [Str "start"]).
  - reflexivity.
  - reflexivity.
  - apply Forall_singleton. exists "start". split; [reflexivity | apply list_elem_of_here].
  - apply list_elem_of_further, list_elem_of_here.
  - discriminate.
Defined.

(** X18.  A load of the page after an answer that left the graph starts
    over: after an answer whose target is a non-empty string that is not a
    step of the (non-empty) graph, the tree built by the next load is on
    the first step with the first step alone in its history; after an
    answer whose target is the empty string nothing was kept, and the next
    load builds the initial state. *)
Theorem reload_starts_over_after_a_stray_answer
    (dom : DOM) (tree : string) (w : world) (datakey : option string)
    (h : list value) :
  history (storage w) = Some h ->
  (forall nextStep,
     nextStep ∉ steps (config_of dom tree) -> nextStep <> "" ->
     steps (config_of dom tree) <> [] ->
     storage (handle dom tree Load (handle dom tree (Answer nextStep datakey) w))
     = {| st_first_step := st_first_step (storage w);
          active := first_step (config_of dom tree);
          history := Some [first_step (config_of dom tree)] |})
  /\ storage (handle dom tree Load (handle dom tree (Answer "" datakey) w))
     = {| st_first_step := first_step (config_of dom tree);
          active := first_step (config_of dom tree);
          history := Some [first_step (config_of dom tree)] |}.
Proof.
  intros Hh. split.
  - intros nextStep Hstray Hne Hsteps.
    destruct (trackAnswer_world dom (config_of dom tree) nextStep datakey w h Hh)
      as [Hs Hl].
    change (handle dom tree (Answer nextStep datakey) w)
      with (snd (trackAnswer dom (config_of dom tree) nextStep datakey w)).
    apply (load_of_saved_record dom tree
             (snd (trackAnswer dom (config_of dom tree) nextStep datakey w)) _
             (<[id (config_of dom tree) := @None state]>
                (_saveStorage (config_of dom tree)
                   (Tree (answered (storage w) h nextStep)) (localStorage w)))).
    rewrite Hl.
    apply (loadStorage_stale _ _ (json_state (answered (storage w) h nextStep))
             (map json_element (h ++ [Str nextStep]))).
    + rewrite saveStorage_tree, lookup_insert_eq. unfold written.
      cbn [answered active history truthy present].
      apply String.eqb_neq in Hne. by rewrite Hne.
    + reflexivity.
    + rewrite map_app. intros Hnil. by apply app_eq_nil in Hnil as [_ Hnil].
    + exact Hsteps.
    + rewrite map_app, Forall_app. intros [_ Hlast].
      cbn [map json_element] in Hlast.
      apply Forall_cons in Hlast as [(x & Heq & Hx) _]. injection Heq as <-. done.
  - destruct (trackAnswer_world dom (config_of dom tree) "" datakey w h Hh) as [Hs Hl].
    change (handle dom tree (Answer "" datakey) w)
      with (snd (trackAnswer dom (config_of dom tree) "" datakey w)).
    apply (load_of_saved_record dom tree
             (snd (trackAnswer dom (config_of dom tree) "" datakey w)) _
             (_saveStorage (config_of dom tree) (Tree (answered (storage w) h ""))
                (localStorage w))).
    rewrite Hl.
    apply load_after_falsy_save. left. reflexivity.
Qed.

Lemma reload_starts_over_after_a_stray_answer_witness :
  history (storage at_q2) = Some [Str "start"; Str "q2"]
  /\ storage (handle page "tree" Load (handle page "tree" (Answer "ghost" None) at_q2))
     = fresh "start"
  /\ storage (handle page "tree" Load (handle page "tree" (Answer "" None) at_q2))
     = fresh "start".
Proof.
  split; [reflexivity|].
  destruct (reload_starts_over_after_a_stray_answer page "tree" at_q2 None
              [Str "start"; Str "q2"] eq_refl) as [Hstray Hempty].
  split; [|exact Hempty].
  apply Hstray; [|discriminate|discriminate].
  intros Hin. vm_compute in Hin.
  repeat (apply elem_of_cons in Hin as [Hin|Hin]; [discriminate|]).
  by apply not_elem_of_nil in Hin.
Defined.

(** ** The listener of [DOMContentLoaded] *)

Lemma constructor_other_items (dom : DOM) (tree : string)
    (ls : gmap string item) (tr : list event) :
  exists w, constructor dom tree ls tr = Instance (config_of dom tree) w
    /\ forall key, key <> tree -> localStorage w !! key = ls !! key.
Proof.
  destruct (constructor_total dom tree ls tr) as (w & s & ls' & Hw & Hload & _ & Hl).
  exists w. split; [exact Hw|]. intros key Hkey.
  assert (Hls' : ls' !! key = ls !! key).
  { destruct (loadStorage_total (config_of dom tree) ls)
      as (s2 & ls2 & Hload2 & Hcases & _).
    rewrite Hload in Hload2. injection Hload2 as <- <-.
    destruct Hcases as [->| ->]; [reflexivity|]. by apply lookup_insert_ne. }
  destruct Hl as [->| ->]; [exact Hls'|].
  rewrite saveStorage_tree. by rewrite lookup_insert_ne.
Qed.

(** X19.  When every identified element can be selected, the listener
    returns and has built one tree for each of them, in the order of the
    document; an element without identifier is passed over. *)
Theorem listener_builds_every_identified_tree
    (select : string -> result DOM) (elements : list (option string))
    (ls : gmap string item) (tr : list event) :
  (forall tree, Some tree ∈ elements -> exists dom, select tree = Ok dom) ->
  escaped (onDOMContentLoaded select elements ls tr) = None
  /\ map (fun t => id (fst t)) (trees (onDOMContentLoaded select elements ls tr))
     = identified elements.
Proof.
  revert ls tr. induction elements as [|[tree|] elements IH]; intros ls tr Hsel.
  - split; reflexivity.
  - destruct (Hsel tree) as [dom Hdom]; [apply list_elem_of_here|].
    destruct (constructor_total dom tree ls tr) as (w & s & ls' & Hw & _).
    cbn [onDOMContentLoaded]. rewrite Hdom, Hw.
    destruct (IH (localStorage w) (trace w)) as [Hesc Htrees].
    { intros t Ht. apply Hsel. by apply list_elem_of_further. }
    cbn [trees escaped map fst]. split; [exact Hesc|].
    unfold identified. cbn [omap]. fold (identified elements).
    by rewrite Htrees.
  - cbn [onDOMContentLoaded]. apply IH.
    intros t Ht. apply Hsel. by apply list_elem_of_further.
Qed.

Lemma listener_builds_every_identified_tree_witness :
  (forall tree, Some tree ∈ [Some "tree"; None; Some "other"] ->
                exists dom, select_page tree = Ok dom)
  /\ escaped (onDOMContentLoaded select_page [Some "tree"; None; Some "other"] ∅ []) = None
  /\ map (fun t => id (fst t))
         (trees (onDOMContentLoaded select_page [Some "tree"; None; Some "other"] ∅ []))
     = ["tree"; "other"].
Proof.
  assert (Hsel : forall tree, Some tree ∈ [Some "tree"; None; Some "other"] ->
                              exists dom, select_page tree = Ok dom).
  { intros tree Hin. rewrite !elem_of_cons in Hin.
    destruct Hin as [[= ->]|[Hin|[[= ->]|Hin]]].
    - by exists page.
    - discriminate.
    - by exists empty_page.
    - by apply not_elem_of_nil in Hin. }
  split; [exact Hsel|].
  apply (listener_builds_every_identified_tree select_page _ ∅ [] Hsel).
Defined.

(** X20.  An element whose identifier cannot be selected ends the
    listener: the exception escapes, the trees of the elements before it
    are built and those of the elements after it are not. *)
Theorem listener_stops_at_the_first_exception
    (select : string -> result DOM) (before after : list (option string))
    (tree : string) (e : exn) (ls : gmap string item) (tr : list event) :
  (forall t, Some t ∈ before -> exists dom, select t = Ok dom) ->
  select tree = Throw e ->
  escaped (onDOMContentLoaded select (before ++ Some tree :: after) ls tr) = Some e
  /\ map (fun t => id (fst t))
         (trees (onDOMContentLoaded select (before ++ Some tree :: after) ls tr))
     = identified before.
Proof.
  intros Hsel Hthrow. revert ls tr.
  induction before as [|[t|] before IH]; intros ls tr.
  - cbn [app onDOMContentLoaded]. rewrite Hthrow. split; reflexivity.
  - destruct (Hsel t) as [dom Hdom]; [apply list_elem_of_here|].
    destruct (constructor_total dom t ls tr) as (w & s & ls' & Hw & _).
    cbn [app onDOMContentLoaded]. rewrite Hdom, Hw.
    destruct (IH (fun t' Ht' => Hsel t' (list_elem_of_further _ _ _ Ht'))
                 (localStorage w) (trace w)) as [Hesc Htrees].
    cbn [trees escaped map fst]. split; [exact Hesc|].
    unfold identified. cbn [omap]. fold (identified before).
    by rewrite Htrees.
  - cbn [app onDOMContentLoaded].
    apply (IH (fun t' Ht' => Hsel t' (list_elem_of_further _ _ _ Ht'))).
Qed.

Lemma listener_stops_at_the_first_exception_witness :
  (forall t, Some t ∈ [Some "tree"] -> exists dom, select_page t = Ok dom)
  /\ select_page "1st" = Throw SyntaxError
  /\ escaped (onDOMContentLoaded select_page
                ([Some "tree"] ++ Some "1st" :: [Some "other"]) ∅ [])
     = Some SyntaxError
  /\ map (fun t => id (fst t))
         (trees (onDOMContentLoaded select_page
                   ([Some "tree"] ++ Some "1st" :: [Some "other"]) ∅ []))
     = ["tree"].
Proof.
  assert (Hsel : forall t, Some t ∈ [Some "tree"] -> exists dom, select_page t = Ok dom).
  { intros t Hin. apply list_elem_of_singleton in Hin. injection Hin as ->.
    by exists page. }
  split; [exact Hsel|]. split; [reflexivity|].
  apply (listener_stops_at_the_first_exception select_page [Some "tree"]
           [Some "other"] "1st" SyntaxError ∅ [] Hsel eq_refl).
Defined.

(** X21.  The listener writes the items of the identified elements only:
    an item of [localStorage] under another key is as it was. *)
Theorem listener_leaves_other_items_alone
    (select : string -> result DOM) (elements : list (option string))
    (ls : gmap string item) (tr : list event) (key : string) :
  Some key ∉ elements ->
  stored (onDOMContentLoaded select elements ls tr) !! key = ls !! key.
Proof.
  revert ls tr. induction elements as [|[tree|] elements IH]; intros ls tr Hkey.
  - reflexivity.
  - apply not_elem_of_cons in Hkey as [Hne Hkey].
    assert (Hne' : key <> tree) by congruence.
    cbn [onDOMContentLoaded]. destruct (select tree) as [dom|e]; [|reflexivity].
    destruct (constructor_other_items dom tree ls tr) as (w & -> & Hframe).
    cbn [stored]. rewrite (IH _ _ Hkey). by apply Hframe.
  - apply not_elem_of_cons in Hkey as [_ Hkey].
    cbn [onDOMContentLoaded]. by apply IH.
Qed.

Lemma listener_leaves_other_items_alone_witness :
  (Some "kept" ∉ [Some "tree"; None; Some "other"])
  /\ stored (onDOMContentLoaded select_page [Some "tree"; None; Some "other"]
               (<["kept" := Some (fresh "x")]> ∅) []) !! "kept"
     = Some (Some (fresh "x")).
Proof.
  assert (Hkey : Some "kept" ∉ [Some "tree"; None; Some "other"]).
  { intros Hin. rewrite !elem_of_cons in Hin.
    destruct Hin as [Hin|[Hin|[Hin|Hin]]]; try discriminate.
    by apply not_elem_of_nil in Hin. }
  split; [exact Hkey|].
  rewrite (listener_leaves_other_items_alone select_page _ _ [] "kept" Hkey).
  reflexivity.
Defined.

(** ** Answers undone by Back *)

Lemma back_reads_the_record_only (dom : DOM) (cfg : config) (w w' : world) :
  storage w = storage w' ->
  storage (snd (trackBackButton dom cfg w)) = storage (snd (trackBackButton dom cfg w')).
Proof.
  intros Hsame. destruct (history (storage w)) as [h|] eqn:Hh.
  - assert (Hh' : history (storage w') = Some h) by (by rewrite <- Hsame).
    destruct (Nat.le_gt_cases (length h) 1) as [Hshort|Hlong].
    + by rewrite (trackBackButton_short dom cfg w h Hh Hshort),
        (trackBackButton_short dom cfg w' h Hh' Hshort).
    + destruct (trackBackButton_pop dom cfg w h Hh Hlong) as [-> _].
      destruct (trackBackButton_pop dom cfg w' h Hh' Hlong) as [-> _].
      by rewrite Hsame.
  - assert (Hh' : history (storage w') = None) by (by rewrite <- Hsame).
    by rewrite (trackBackButton_no_history dom cfg w Hh),
      (trackBackButton_no_history dom cfg w' Hh').
Qed.

Lemma run_app (dom : DOM) (tree : string) (inputs1 inputs2 : list input) (w : world) :
  run dom tree (inputs1 ++ inputs2) w = run dom tree inputs2 (run dom tree inputs1 w).
Proof. unfold run. apply fold_left_app. Qed.

(** X22.  Back undoes answers one by one: from a record whose history ends
    with its active step, any answers followed by as many Back give back
    the record, whatever the targets were. *)
Theorem as_many_backs_undo_the_answers
    (dom : DOM) (tree : string) (answers : list (string * option string)) (w : world) :
  ends_with_active (storage w) ->
  storage (run dom tree
             (map (fun a => Answer (fst a) (snd a)) answers
              ++ replicate (length answers) Back) w)
  = storage w.
Proof.
  revert w. induction answers as [|[x dk] answers IH]; intros w Hw; [reflexivity|].
  cbn [map length fst snd]. rewrite replicate_S_end, app_assoc, run_app.
  cbn [app]. change (run dom tree (Answer x dk :: ?l) w)
    with (run dom tree l (handle dom tree (Answer x dk) w)).
  set (w1 := handle dom tree (Answer x dk) w).
  assert (Hw1 : ends_with_active (storage w1)).
  { destruct Hw as (h & Hh & _).
    destruct (trackAnswer_world dom (config_of dom tree) x dk w h Hh) as [Hs _].
    exists (h ++ [Str x]). subst w1. unfold handle. rewrite Hs.
    split; [reflexivity | apply last_snoc]. }
  specialize (IH w1 Hw1).
  cbn [run fold_left handle].
  rewrite (back_reads_the_record_only dom (config_of dom tree) _ w1 IH).
  subst w1. unfold handle. by apply answer_then_back.
Qed.

Lemma as_many_backs_undo_the_answers_witness :
  ends_with_active (storage at_q2)
  /\ storage (run page "tree"
                [Answer "end" None; Answer "ghost" (Some "path"); Answer "" None;
                 Back; Back; Back] at_q2)
     = storage at_q2.
Proof.
  assert (Hends : ends_with_active (storage at_q2)).
  { exists [Str "start"; Str "q2"]. split; reflexivity. }
  split; [exact Hends|].
  exact (as_many_backs_undo_the_answers page "tree"
           [("end", None); ("ghost", Some "path"); ("", None)] at_q2 Hends).
Defined.
